(** * Mint-feed pipeline: log decoding and aggregation

    A shallow embedding of the log-classification and aggregation code of
    the live mint feed (the [App] component with [constants.ts] and
    [types.ts]) together with the properties the specification states
    about it.

    Conventions of the embedding:
    - JavaScript strings are [string]; the strings handled here are ASCII
      (hex topics, addresses, decimal numerals), on which code units and
      bytes coincide.
    - JavaScript numbers holding integers (block numbers, log indexes,
      counters) are [Z] or [nat]; [logIndex], which receives the
      fractional offsets of batch sub-items, is an exact rational [Q].
      The last section compares this with double precision.
    - [undefined] fields are [option]s; a [throw] is an explicit outcome.
    - State held in React state cells and in the [metaCache] ref is one
      record passed explicitly; queued state updaters are applied in the
      order in which they were queued. *)

From Stdlib Require Import ZArith QArith String Ascii List Sorting.Sorted Permutation Lia Lqa.
From Stdlib Require Import Floats.PrimFloat.
From stdpp Require Import base tactics option list sorting gmap strings pretty.

Local Open Scope string_scope.
Local Open Scope Z_scope.
Local Open Scope list_scope.

(** ** types.ts *)

Inductive TokenType := ERC20 | ERC721 | ERC1155.

#[global] Instance TokenType_eq_dec : EqDecision TokenType.
Proof. solve_decision. Defined.

Module MintItem.
Record t := mk {
  blockNumber : Z;
  txHash : string;
  logIndex : Q;
  contract : string;
  to : string;
  type : TokenType;
  tokenId : option string;
  amount : option string;
  timestamp : option Z;
}.

(** [it.timestamp = ts] *)
Definition set_timestamp (ts : option Z) (it : t) : t :=
  mk (blockNumber it) (txHash it) (logIndex it) (contract it) (to it)
     (type it) (tokenId it) (amount it) ts.
End MintItem.

Module ContractMeta.
Record t := mk {
  name : option string;
  symbol : option string;
  decimals : option Z;
}.

(** The object literal [{}]. *)
Definition empty : t := mk None None None.
End ContractMeta.

Module CollSummary.
Record t := mk {
  address : string;
  type : TokenType;
  name : option string;
  symbol : option string;
  decimals : option Z;
  totalMintEvents : nat;
  uniqueTokens : nat;
  tokenIds : gset string;
}.
End CollSummary.

(** The fields of an ethers [Log] that the feed reads. *)
Module Log.
Record t := mk {
  address : string;
  topics : list string;
  data : string;
  blockNumber : Z;
  transactionHash : string;
  index : Z;
}.
End Log.

(** ** constants.ts *)

Definition ZERO_ADDR : string := "0x0000000000000000000000000000000000000000".

(** [ethers.zeroPadValue(ZERO_ADDR, 32)]: the 20 zero bytes left-padded
    to 32 bytes. *)
Definition ZERO_TOPIC : string :=
  "0x0000000000000000000000000000000000000000000000000000000000000000".

Definition TRANSFER_TOPIC : string :=
  "0xddf252ad1be2c89b69c2b068fc378daa952ba7f163c4a11628f55a4df523b3ef".
Definition TRANSFER_SINGLE_TOPIC : string :=
  "0xc3d58168c5ae7397731d063d5bbf3d657854427343f4c083240f7aacaa2d0f62".
Definition TRANSFER_BATCH_TOPIC : string :=
  "0x4a39dc06d4c0dbc64b70af90fd698a233a518aa5d07e595d983b8c0526c8f7fb".

Definition MINT_CONTRACT_WHITELIST : list string :=
  ["0x00000000009a1E02f00E280dcfA4C81c55724212"].

(** ** JavaScript string primitives *)

(** [s.slice(n)] for [n >= 0]: the suffix from position [n], empty when
    [s] is shorter. *)
Fixpoint slice (n : nat) (s : string) : string :=
  match n, s with
  | O, _ => s
  | S n', String _ s' => slice n' s'
  | S _, EmptyString => EmptyString
  end.

(** [c.toLowerCase()] on one ASCII character: only [A]..[Z] move. *)
Definition lowerAscii (c : ascii) : ascii :=
  let n := nat_of_ascii c in
  if (Nat.leb 65 n && Nat.leb n 90)%bool then ascii_of_nat (n + 32) else c.

(** [s.toLowerCase()] on an ASCII string. *)
Fixpoint toLowerCase (s : string) : string :=
  match s with
  | EmptyString => EmptyString
  | String c s' => String (lowerAscii c) (toLowerCase s')
  end.

(** Truthiness of an optional string: [undefined], [null] and [""] are
    falsy. *)
Definition truthy (o : option string) : bool :=
  match o with
  | Some s => negb (String.eqb s "")
  | None => false
  end.

(** [n.toString()] of a bigint: its decimal numeral. *)
Definition bigintToString (n : Z) : string := pretty n.

(** ** The ethers functions the decoder calls

    The library is not part of the repository; the decoder is embedded
    over an interface giving each call its result, [None] standing for a
    thrown error. *)
Class Ethers := {
  (** [ethers.getAddress(s)]: the checksummed form of a valid address. *)
  getAddress : string -> option string;
  (** [ethers.toBigInt(s)] *)
  toBigInt : string -> option Z;
  (** [AbiCoder.defaultAbiCoder().decode(['uint256'], data)[0]] *)
  decodeUint256 : string -> option Z;
  (** [decode(['uint256', 'uint256'], data)] *)
  decodeUint256Pair : string -> option (Z * Z);
  (** [decode(['uint256[]', 'uint256[]'], data)] *)
  decodeUint256Arrays : string -> option (list Z * list Z);
}.

(** ** Completions and [try] blocks *)

(** How a call ends: with a value, or with an error thrown to the
    caller. *)
Inductive Completion (A : Type) : Type :=
  | Normal (x : A)
  | Thrown.
Arguments Normal {A} x.
Arguments Thrown {A}.

(** A statement sequence inside [try { ... }] that may push onto the
    enclosing [results] array: it receives the array as it stands and
    gives it back together with its value, or with [None] when an error
    was thrown part-way. What was pushed before the error stays pushed. *)
Definition Try (A : Type) : Type :=
  list MintItem.t -> list MintItem.t * option A.

Definition ret {A} (x : A) : Try A := fun rs => (rs, Some x).
Definition throw {A} : Try A := fun rs => (rs, None).
Definition bind {A B} (m : Try A) (k : A -> Try B) : Try B :=
  fun rs =>
    match m rs with
    | (rs', Some x) => k x rs'
    | (rs', None) => (rs', None)
    end.
Definition push (it : MintItem.t) : Try unit := fun rs => (rs ++ [it], Some tt).

(** A library call, or a member access on a possibly [undefined] value. *)
Definition orThrow {A} (o : option A) : Try A :=
  match o with
  | Some x => ret x
  | None => throw
  end.

Notation "'let*' x := m 'in' k" := (bind m (fun x => k))
  (at level 10, x name, m at level 100, k at level 200, only parsing).

(** [const results = []; try { body } catch (e) { console.error(..) }
    return results;] *)
Definition tryCatch (body : Try unit) : list MintItem.t := fst (body []).

(** ** processLog *)

Record BaseItem := {
  base_blockNumber : Z;
  base_txHash : string;
  base_logIndex : Z;
  base_contract : string;
}.

Section Decoder.
Context {E : Ethers}.

(** [log.topics[i] === ZERO_TOPIC]; an absent topic is [undefined]
    and compares unequal. *)
Definition topicIs (log : Log.t) (i : nat) (t : string) : bool :=
  match Log.topics log !! i with
  | Some s => String.eqb s t
  | None => false
  end.

(** [ethers.getAddress(`0x${log.topics[i].slice(26)}`)] *)
Definition topicAddress (log : Log.t) (i : nat) : Try string :=
  let* t := orThrow (Log.topics log !! i) in
  orThrow (getAddress ("0x" ++ slice 26 t)%string).

(** [case TRANSFER_TOPIC] *)
Definition transferCase (b : BaseItem) (log : Log.t) : Try unit :=
  if topicIs log 1 ZERO_TOPIC then
    let* to := topicAddress log 2 in
    if Nat.eqb (length (Log.topics log)) 4 then
      let* t3 := orThrow (Log.topics log !! 3%nat) in
      let* id := orThrow (toBigInt t3) in
      push (MintItem.mk (base_blockNumber b) (base_txHash b)
              (inject_Z (base_logIndex b)) (base_contract b) to ERC721
              (Some (bigintToString id)) None None)
    else
      let* amount := orThrow (decodeUint256 (Log.data log)) in
      push (MintItem.mk (base_blockNumber b) (base_txHash b)
              (inject_Z (base_logIndex b)) (base_contract b) to ERC20
              None (Some (bigintToString amount)) None)
  else ret tt.

(** [case TRANSFER_SINGLE_TOPIC] *)
Definition transferSingleCase (b : BaseItem) (log : Log.t) : Try unit :=
  if topicIs log 2 ZERO_TOPIC then
    let* to := topicAddress log 3 in
    let* iv := orThrow (decodeUint256Pair (Log.data log)) in
    push (MintItem.mk (base_blockNumber b) (base_txHash b)
            (inject_Z (base_logIndex b)) (base_contract b) to ERC1155
            (Some (bigintToString (fst iv))) (Some (bigintToString (snd iv)))
            None)
  else ret tt.

(** [baseItem.logIndex + i * 0.001] *)
Definition subIndex (base : Z) (i : nat) : Q :=
  (inject_Z base + inject_Z (Z.of_nat i) * (1 # 1000))%Q.

(** [for (let i = ..; i < ids.length; i++) { results.push({..}) }], with
    [n] iterations left. Reading [values[i]] past the end of [values]
    throws inside the loop. *)
Fixpoint batchLoop (b : BaseItem) (to : string) (ids values : list Z)
    (n i : nat) : Try unit :=
  match n with
  | O => ret tt
  | S n' =>
      let* id := orThrow (ids !! i) in
      let* value := orThrow (values !! i) in
      let* _ := push (MintItem.mk (base_blockNumber b) (base_txHash b)
              (subIndex (base_logIndex b) i) (base_contract b) to ERC1155
              (Some (bigintToString id)) (Some (bigintToString value))
              None) in
      batchLoop b to ids values n' (S i)
  end.

(** [case TRANSFER_BATCH_TOPIC] *)
Definition transferBatchCase (b : BaseItem) (log : Log.t) : Try unit :=
  if topicIs log 2 ZERO_TOPIC then
    let* to := topicAddress log 3 in
    let* iv := orThrow (decodeUint256Arrays (Log.data log)) in
    batchLoop b to (fst iv) (snd iv) (length (fst iv)) 0
  else ret tt.

(** [switch (log.topics[0]) { ... }] *)
Definition switchTopic0 (b : BaseItem) (log : Log.t) : Try unit :=
  match Log.topics log !! 0%nat with
  | None => ret tt
  | Some t0 =>
      if String.eqb t0 TRANSFER_TOPIC then transferCase b log
      else if String.eqb t0 TRANSFER_SINGLE_TOPIC then transferSingleCase b log
      else if String.eqb t0 TRANSFER_BATCH_TOPIC then transferBatchCase b log
      else ret tt
  end.

(** [processLog]. The address of the log is normalised before the
    [try] block is entered, so an error there reaches the caller. *)
Definition processLog (log : Log.t) : Completion (list MintItem.t) :=
  match getAddress (Log.address log) with
  | None => Thrown
  | Some c =>
      let baseItem :=
        {| base_blockNumber := Log.blockNumber log;
           base_txHash := Log.transactionHash log;
           base_logIndex := Log.index log;
           base_contract := c |} in
      Normal (tryCatch (switchTopic0 baseItem log))
  end.
End Decoder.

(** ** Array.prototype.sort with a comparator

    ECMAScript requires [sort] to be stable and, for a consistent
    comparator, to return the elements in comparator order; that fixes
    the result (shown below for the feed's comparator), which is the
    one stable insertion computes: an element moves behind exactly
    those neighbours the comparator puts before it. *)

(** [cmp(x, y) > 0] *)
Definition positive (q : Q) : bool := (0 <? Qnum q)%Z.

Section JsSort.
Context {A : Type} (cmp : A -> A -> Q).

Fixpoint insertSorted (x : A) (l : list A) : list A :=
  match l with
  | [] => [x]
  | y :: l' => if positive (cmp x y) then y :: insertSorted x l' else x :: l
  end.

Definition jsSort (l : list A) : list A := foldr insertSorted [] l.
End JsSort.

(** [(a, b) => b.blockNumber - a.blockNumber || b.logIndex - a.logIndex] *)
Definition compareMints (a b : MintItem.t) : Q :=
  let d := inject_Z (MintItem.blockNumber b - MintItem.blockNumber a) in
  if Qeq_bool d 0 then (MintItem.logIndex b - MintItem.logIndex a)%Q else d.

(** The order of the feed: most recent block first and, within a block,
    highest log index first. [feedOrder a b] lets [a] stand before [b]. *)
Definition feedOrder (a b : MintItem.t) : Prop :=
  MintItem.blockNumber b < MintItem.blockNumber a \/
  (MintItem.blockNumber a = MintItem.blockNumber b /\
   (MintItem.logIndex b <= MintItem.logIndex a)%Q).

(** [a] has to stand before [b]. *)
Definition feedBefore (a b : MintItem.t) : Prop :=
  MintItem.blockNumber b < MintItem.blockNumber a \/
  (MintItem.blockNumber a = MintItem.blockNumber b /\
   (MintItem.logIndex b < MintItem.logIndex a)%Q).

(** [a] and [b] have the same sort key; the comparator returns zero on
    them. *)
Definition sameKey (a b : MintItem.t) : Prop :=
  MintItem.blockNumber a = MintItem.blockNumber b /\
  (MintItem.logIndex a == MintItem.logIndex b)%Q.

#[global] Instance sameKey_dec (a b : MintItem.t) : Decision (sameKey a b).
Proof.
  unfold sameKey.
  destruct (Z.eq_dec (MintItem.blockNumber a) (MintItem.blockNumber b)) as [Hbn|Hbn];
    [|right; tauto].
  destruct (Qeq_dec (MintItem.logIndex a) (MintItem.logIndex b)) as [Hli|Hli];
    [left; tauto | right; tauto].
Defined.

(** ** Component state *)

Record State := {
  httpProvider : bool;  (** the HTTP provider is non-null *)
  wsProvider : bool;    (** the WebSocket provider is non-null *)
  subscribing : bool;
  mints : list MintItem.t;
  summaries : gmap string CollSummary.t;
  metaCache : gmap string ContractMeta.t;
  (** Ghost: the contracts whose metadata calls were issued since the
      session started, in issue order. *)
  fetches : list (string * TokenType);
}.

Definition with_mints (ms : list MintItem.t) (st : State) : State :=
  {| httpProvider := httpProvider st; wsProvider := wsProvider st;
     subscribing := subscribing st; mints := ms; summaries := summaries st;
     metaCache := metaCache st; fetches := fetches st |}.

Definition with_summaries (sm : gmap string CollSummary.t) (st : State) : State :=
  {| httpProvider := httpProvider st; wsProvider := wsProvider st;
     subscribing := subscribing st; mints := mints st; summaries := sm;
     metaCache := metaCache st; fetches := fetches st |}.

Definition with_metaCache (mc : gmap string ContractMeta.t) (st : State) : State :=
  {| httpProvider := httpProvider st; wsProvider := wsProvider st;
     subscribing := subscribing st; mints := mints st; summaries := summaries st;
     metaCache := mc; fetches := fetches st |}.

Definition with_fetch (addr : string) (type : TokenType) (st : State) : State :=
  {| httpProvider := httpProvider st; wsProvider := wsProvider st;
     subscribing := subscribing st; mints := mints st; summaries := summaries st;
     metaCache := metaCache st; fetches := fetches st ++ [(addr, type)] |}.

(** ** fetchTimestamp

    [getBlock] gives the chain's answer for a block number: an error, no
    block ([null]), or the block's timestamp. A zero timestamp is falsy
    and reads as [undefined]. *)
Definition fetchTimestamp (provider : bool)
    (getBlock : Z -> Completion (option Z)) (blockNumber : Z) : option Z :=
  if negb provider then None
  else match getBlock blockNumber with
       | Normal (Some ts) => if ts =? 0 then None else Some ts
       | Normal None => None
       | Thrown => None
       end.

(** ** enrichCollection *)

(** Up to the [await]: the guard, the placeholder and the issue of the
    metadata calls. *)
Definition enrichCollection (addr : string) (type : TokenType) (st : State) : State :=
  if negb (httpProvider st) || bool_decide (is_Some (metaCache st !! addr)) then st
  else with_fetch addr type (with_metaCache (<[addr := ContractMeta.empty]> (metaCache st)) st).

(** [{ ...cur, ...meta }]: [meta] is built with all three keys, so each
    of them overwrites, also with [undefined]. *)
Definition spreadMeta (cur : CollSummary.t) (meta : ContractMeta.t) : CollSummary.t :=
  CollSummary.mk (CollSummary.address cur) (CollSummary.type cur)
    (ContractMeta.name meta) (ContractMeta.symbol meta) (ContractMeta.decimals meta)
    (CollSummary.totalMintEvents cur) (CollSummary.uniqueTokens cur)
    (CollSummary.tokenIds cur).

(** From the [await Promise.allSettled] on: each argument is the value
    of a fulfilled call, or [None] for a rejected one. [decimals()] is
    only called for ERC-20. *)
Definition enrichSettled (addr : string) (type : TokenType)
    (nameRes symbolRes : option string) (decimalsRes : option Z) (st : State) : State :=
  let meta :=
    ContractMeta.mk nameRes symbolRes
      (match type with ERC20 => decimalsRes | _ => None end) in
  let st' := with_metaCache (<[addr := meta]> (metaCache st)) st in
  match summaries st' !! addr with
  | None => st'
  | Some cur => with_summaries (<[addr := spreadMeta cur meta]> (summaries st')) st'
  end.

(** ** upsertSummary *)

(** [if (item.tokenId) tokenIds.add(item.tokenId)] on a copy of the set *)
Definition addTokenId (tokenId : option string) (ids : gset string) : gset string :=
  match tokenId with
  | Some id => if truthy tokenId then {[ id ]} ∪ ids else ids
  | None => ids
  end.

Definition upsertSummary (item : MintItem.t) (st : State) : State :=
  let addr := MintItem.contract item in
  let cur :=
    match summaries st !! addr with
    | Some cur => cur
    | None =>
        CollSummary.mk addr (MintItem.type item)
          (metaCache st !! addr ≫= ContractMeta.name)
          (metaCache st !! addr ≫= ContractMeta.symbol)
          (metaCache st !! addr ≫= ContractMeta.decimals)
          0 0 ∅
    end in
  let tokenIds := addTokenId (MintItem.tokenId item) (CollSummary.tokenIds cur) in
  let next :=
    CollSummary.mk (CollSummary.address cur) (CollSummary.type cur)
      (CollSummary.name cur) (CollSummary.symbol cur) (CollSummary.decimals cur)
      (CollSummary.totalMintEvents cur + 1) (size tokenIds) tokenIds in
  with_summaries (<[addr := next]> (summaries st)) st.

(** ** processNewItems *)

(** One turn of the [for (const it of newItems)] loop. *)
Definition ingestItem (st : State) (it : MintItem.t) : State :=
  let st' := upsertSummary it st in
  if bool_decide (is_Some (metaCache st' !! MintItem.contract it)) then st'
  else enrichCollection (MintItem.contract it) (MintItem.type it) st'.

Definition ingestLoop (newItems : list MintItem.t) (st : State) : State :=
  foldl ingestItem st newItems.

(** The [byBlock] loop: one lookup per block number of the call, whose
    result is written to every item of that block. *)
Definition stampItems (fetchTs : Z -> option Z) (newItems : list MintItem.t)
    : list MintItem.t :=
  map (fun it => MintItem.set_timestamp (fetchTs (MintItem.blockNumber it)) it) newItems.

(** [setMints(prev => [...newItems, ...prev].sort(..))] *)
Definition setMints (newItems : list MintItem.t) (st : State) : State :=
  with_mints (jsSort compareMints (newItems ++ mints st)) st.

(** [fetchTs] is the [fetchTimestamp] callback the hook closes over. *)
Definition processNewItems (fetchTs : Z -> option Z) (newItems : list MintItem.t)
    (st : State) : State :=
  match newItems with
  | [] => st
  | _ => setMints (stampItems fetchTs newItems) (ingestLoop newItems st)
  end.

(** ** startLive *)

(** [allowedMintContracts] *)
Definition allowedMintContracts : gset string :=
  list_to_set (map toLowerCase MINT_CONTRACT_WHITELIST).

(** The session reset at the head of [startLive]. *)
Definition startLive (st : State) : State :=
  if negb (wsProvider st) || negb (httpProvider st) || subscribing st then st
  else {| httpProvider := httpProvider st; wsProvider := wsProvider st;
          subscribing := true; mints := []; summaries := ∅; metaCache := ∅;
          fetches := [] |}.

(** The [to] field of the transaction [getTransaction] returned. *)
Record Transaction := { tx_to : option string }.

(** [tx && tx.to && allowedMintContracts.has(tx.to.toLowerCase())] *)
Definition allowedTx (tx : option Transaction) : bool :=
  match tx with
  | None => false
  | Some t =>
      truthy (tx_to t) &&
      match tx_to t with
      | Some to => bool_decide (toLowerCase to ∈ allowedMintContracts)
      | None => false
      end
  end.

Section Listener.
Context {E : Ethers}.

(** The log listener installed by [startLive]. [tx] is the completion
    of [getTransaction]; every error raised in the body is caught and
    logged. *)
Definition listener (tx : Completion (option Transaction))
    (getBlock : Z -> Completion (option Z)) (log : Log.t) (st : State) : State :=
  match tx with
  | Thrown => st
  | Normal tx =>
      if allowedTx tx then
        match processLog log with
        | Thrown => st
        | Normal newItems =>
            if (0 <? length newItems)%nat then
              processNewItems (fetchTimestamp (httpProvider st) getBlock) newItems st
            else st
        end
      else st
  end.

(** One delivery of the log stream, with the answers the chain gives
    while it is handled. *)
Record Delivery := {
  d_tx : Completion (option Transaction);
  d_getBlock : Z -> Completion (option Z);
  d_log : Log.t;
}.

Definition deliver (st : State) (d : Delivery) : State :=
  listener (d_tx d) (d_getBlock d) (d_log d) st.

(** The listener run on a stream of deliveries, one after the other. *)
Definition runLogs (ds : list Delivery) (st : State) : State :=
  foldl deliver st ds.
End Listener.

(** ** Sessions

    Between two [await]s the component runs one of the pieces below to
    completion; a live session is a sequence of them in the order in
    which the event loop ran them. A call of [processNewItems] is its
    [Loop] followed, after the timestamp lookups, by its [Publish];
    pieces of other calls and settled metadata lookups may run in
    between. *)
Inductive Event :=
  | Loop (newItems : list MintItem.t)
      (** the [for (const it of newItems)] loop of [processNewItems] *)
  | Publish (newItems : list MintItem.t)
      (** the [setMints] that ends a [processNewItems] call *)
  | Enrich (addr : string) (type : TokenType)
      (** a call of [enrichCollection], up to its [await] *)
  | Settled (addr : string) (type : TokenType)
      (nameRes symbolRes : option string) (decimalsRes : option Z)
      (** the rest of that call, once the lookups have settled *).

Definition step (st : State) (ev : Event) : State :=
  match ev with
  | Loop newItems => ingestLoop newItems st
  | Publish [] => st
  | Publish newItems => setMints newItems st
  | Enrich addr type => enrichCollection addr type st
  | Settled addr type nameRes symbolRes decimalsRes =>
      enrichSettled addr type nameRes symbolRes decimalsRes st
  end.

Definition run (tr : list Event) (st : State) : State := foldl step st tr.

(** The items the loops of a trace went through, in order. *)
Fixpoint folded (tr : list Event) : list MintItem.t :=
  match tr with
  | [] => []
  | Loop newItems :: tr' => newItems ++ folded tr'
  | _ :: tr' => folded tr'
  end.

(** A sequence of [processNewItems] calls, each run to completion. *)
Definition ingestAll (fetchTs : Z -> option Z) (calls : list (list MintItem.t))
    (st : State) : State :=
  foldl (fun st newItems => processNewItems fetchTs newItems st) st calls.

(** The items minted by contract [addr]. *)
Definition mintsOf (addr : string) (items : list MintItem.t) : list MintItem.t :=
  filter (fun it => MintItem.contract it = addr) items.

(** The non-empty token ids carried by a sequence of items. *)
Definition seenTokenIds (items : list MintItem.t) : list string :=
  omap (fun it => if truthy (MintItem.tokenId it) then MintItem.tokenId it else None)
       items.

(** The number of distinct entries of a list. *)
Definition distinct (l : list string) : nat := length (remove_dups l).

(** What the summary entry of a contract has to be once the loops went
    through [items] of that contract: absent when there were none,
    otherwise counting them all and holding their token ids. *)
Definition summaryCounts (items : list MintItem.t) (o : option CollSummary.t) : Prop :=
  match o with
  | None => items = []
  | Some s =>
      items <> [] /\
      CollSummary.totalMintEvents s = length items /\
      CollSummary.tokenIds s = list_to_set (seenTokenIds items) /\
      CollSummary.uniqueTokens s = size (CollSummary.tokenIds s)
  end.

Definition countsInv (items : list MintItem.t) (st : State) : Prop :=
  forall addr, summaryCounts (mintsOf addr items) (summaries st !! addr).

(** Every contract fetched so far was fetched once and has its cache
    entry. *)
Definition fetchesInv (st : State) : Prop :=
  NoDup (fetches st).*1 /\
  forall addr, addr ∈ (fetches st).*1 -> is_Some (metaCache st !! addr).

(** The number of metadata fetches issued for [addr]. *)
Definition fetchCount (addr : string) (st : State) : nat :=
  length (filter (fun f => f.1 = addr) (fetches st)).

Section ListenerTrace.
Context {E : Ethers}.

(** The pieces a delivery runs when nothing interrupts it. [provider]
    is the [httpProvider] cell. *)
Definition deliveryTrace (provider : bool) (d : Delivery) : list Event :=
  match d_tx d with
  | Thrown => []
  | Normal tx =>
      if allowedTx tx then
        match processLog (d_log d) with
        | Thrown => []
        | Normal newItems =>
            [Loop newItems;
             Publish (stampItems (fetchTimestamp provider (d_getBlock d)) newItems)]
        end
      else []
  end.
End ListenerTrace.

(** ** A reference instance of the ethers interface

    A small executable stand-in used to run the decoder on concrete
    logs. It agrees with the library on the inputs it accepts:
    addresses written with decimal digits only (their checksummed form
    is the address itself), [0x]-prefixed hexadecimal numerals, and
    payloads made of whole, word-aligned 32-byte words. Everything else
    it rejects. *)
Module EthersRef.
Definition hexDigit (c : ascii) : option Z :=
  let n := Z.of_nat (nat_of_ascii c) in
  if (48 <=? n) && (n <=? 57) then Some (n - 48)
  else if (97 <=? n) && (n <=? 102) then Some (n - 87)
  else if (65 <=? n) && (n <=? 70) then Some (n - 55)
  else None.

Fixpoint hexValue (acc : Z) (s : string) : option Z :=
  match s with
  | EmptyString => Some acc
  | String c s' =>
      match hexDigit c with
      | Some d => hexValue (16 * acc + d) s'
      | None => None
      end
  end.

Definition stripPrefix (s : string) : option string :=
  match s with
  | String "0" (String "x" r) => Some r
  | _ => None
  end.

Fixpoint allDecimal (s : string) : bool :=
  match s with
  | EmptyString => true
  | String c s' =>
      let n := nat_of_ascii c in
      Nat.leb 48 n && Nat.leb n 57 && allDecimal s'
  end.

Definition getAddress (s : string) : option string :=
  match stripPrefix s with
  | Some r => if Nat.eqb (String.length r) 40 && allDecimal r then Some s else None
  | None => None
  end.

Definition toBigInt (s : string) : option Z :=
  match stripPrefix s with
  | Some EmptyString => None
  | Some r => hexValue 0 r
  | None => None
  end.

(** The payload as its sequence of 32-byte words. *)
Fixpoint wordsOf (fuel : nat) (s : string) : option (list Z) :=
  match fuel with
  | O => None
  | S fuel' =>
      match s with
      | EmptyString => Some []
      | _ =>
          if Nat.ltb (String.length s) 64 then None
          else match hexValue 0 (substring 0 64 s), wordsOf fuel' (slice 64 s) with
               | Some w, Some ws => Some (w :: ws)
               | _, _ => None
               end
      end
  end.

Definition payload (data : string) : option (list Z) :=
  match stripPrefix data with
  | Some r => wordsOf (S (String.length r)) r
  | None => None
  end.

(** The dynamic array whose head slot holds byte offset [off]. *)
Definition arrayAt (ws : list Z) (off : Z) : option (list Z) :=
  if negb (off mod 32 =? 0) || (off <? 0) then None
  else
    let start := Z.to_nat (off / 32) in
    match ws !! start with
    | Some n =>
        let items := take (Z.to_nat n) (drop (S start) ws) in
        if Nat.eqb (length items) (Z.to_nat n) then Some items else None
    | None => None
    end.

Definition decodeUint256 (data : string) : option Z :=
  match payload data with
  | Some (w :: _) => Some w
  | _ => None
  end.

Definition decodeUint256Pair (data : string) : option (Z * Z) :=
  match payload data with
  | Some (w1 :: w2 :: _) => Some (w1, w2)
  | _ => None
  end.

Definition decodeUint256Arrays (data : string) : option (list Z * list Z) :=
  match payload data with
  | Some ((o1 :: o2 :: _) as ws) =>
      match arrayAt ws o1, arrayAt ws o2 with
      | Some ids, Some values => Some (ids, values)
      | _, _ => None
      end
  | _ => None
  end.

Definition instance : Ethers :=
  Build_Ethers getAddress toBigInt decodeUint256 decodeUint256Pair
    decodeUint256Arrays.
End EthersRef.

(** ** The sub-index in double precision

    [logIndex] is a JavaScript number. The same expression over IEEE 754
    doubles, to compare the rational model with on sample values. *)
#[warnings="-inexact-float"]
Definition subIndexDouble (base i : PrimFloat.float) : PrimFloat.float :=
  (base + i * 0.001)%float.

(** ** Sample logs

    Concrete logs on which the decoder is run in the examples below.
    Addresses are written with decimal digits only, so that their
    checksummed form is the address itself. *)
Module Sample.
Definition contract9 : string := "0x0000000000000000000000000000000000000009".
Definition recipient7 : string := "0x0000000000000000000000000000000000000007".

(** [recipient7] as a 32-byte topic, and the operator of the ERC-1155
    transfers. *)
Definition recipientTopic : string :=
  "0x0000000000000000000000000000000000000000000000000000000000000007".
Definition operatorTopic : string :=
  "0x0000000000000000000000000000000000000000000000000000000000000001".

Definition word5 : string :=
  "0x0000000000000000000000000000000000000000000000000000000000000005".

(** ERC-721 mint of token 42 (0x2a): four topics, no data. *)
Definition erc721Log : Log.t :=
  Log.mk contract9
    [TRANSFER_TOPIC; ZERO_TOPIC; recipientTopic;
     "0x000000000000000000000000000000000000000000000000000000000000002a"]
    "0x" 100 "0xaa" 5.

(** A standard ERC-20 mint of 5 units: signature, from, to. *)
Definition erc20Log : Log.t :=
  Log.mk contract9 [TRANSFER_TOPIC; ZERO_TOPIC; recipientTopic] word5 100 "0xaa" 5.

(** A Transfer log with the sender as its only indexed argument. *)
Definition twoTopicLog : Log.t :=
  Log.mk contract9 [TRANSFER_TOPIC; ZERO_TOPIC] word5 100 "0xaa" 5.

(** ERC-1155 batch mint, ids [1,2,3], values [10,20,30]. *)
Definition batchData : string :=
  "0x000000000000000000000000000000000000000000000000000000000000004000000000000000000000000000000000000000000000000000000000000000c000000000000000000000000000000000000000000000000000000000000000030000000000000000000000000000000000000000000000000000000000000001000000000000000000000000000000000000000000000000000000000000000200000000000000000000000000000000000000000000000000000000000000030000000000000000000000000000000000000000000000000000000000000003000000000000000000000000000000000000000000000000000000000000000a0000000000000000000000000000000000000000000000000000000000000014000000000000000000000000000000000000000000000000000000000000001e".
Definition batchLog : Log.t :=
  Log.mk contract9 [TRANSFER_BATCH_TOPIC; operatorTopic; ZERO_TOPIC; recipientTopic]
    batchData 100 "0xaa" 5.

(** ERC-1155 batch whose payload decodes to ids [1,2] and values [10]. *)
Definition unevenData : string :=
  "0x000000000000000000000000000000000000000000000000000000000000004000000000000000000000000000000000000000000000000000000000000000a00000000000000000000000000000000000000000000000000000000000000002000000000000000000000000000000000000000000000000000000000000000100000000000000000000000000000000000000000000000000000000000000020000000000000000000000000000000000000000000000000000000000000001000000000000000000000000000000000000000000000000000000000000000a".
Definition unevenLog : Log.t :=
  Log.mk contract9 [TRANSFER_BATCH_TOPIC; operatorTopic; ZERO_TOPIC; recipientTopic]
    unevenData 100 "0xaa" 5.


(** The state right after [startLive] has reset the session. *)
Definition sessionStart : State :=
  {| httpProvider := true; wsProvider := true; subscribing := true;
     mints := []; summaries := ∅; metaCache := ∅; fetches := [] |}.

(** An idle component still showing the feed of an earlier session. *)
Definition idle : State :=
  {| httpProvider := true; wsProvider := true; subscribing := false;
     mints := [MintItem.mk 1 "0xaa" (inject_Z 0) contract9 recipient7 ERC721
                 (Some "1") None None];
     summaries := ∅; metaCache := {[ contract9 := ContractMeta.empty ]};
     fetches := [(contract9, ERC721)] |}.

(** An ERC-721 mint of [contract9] logged at a whole index. *)
Definition nft (blockNumber index : Z) (tokenId : string) : MintItem.t :=
  MintItem.mk blockNumber "0xaa" (inject_Z index) contract9 recipient7 ERC721
    (Some tokenId) None None.

(** Sub-item 1000 of a batch logged at index 5 of block 100, and the
    mint logged right after it at index 6. *)
Definition batchTail : MintItem.t :=
  MintItem.mk 100 "0xaa" (subIndex 5 1000) contract9 recipient7 ERC1155
    (Some "1001") (Some "1") None.
Definition nextLog : MintItem.t := nft 100 6 "7".

(** A feed that is out of order. *)
Definition disordered : State := with_mints [nft 1 0 "1"; nft 3 0 "3"] sessionStart.

(** Five logs of one contract, looped before any lookup settles. *)
Definition fiveLogs : list Event :=
  [Loop [nft 1 0 "1"]; Loop [nft 1 1 "2"]; Loop [nft 1 2 "3"];
   Loop [nft 2 0 "4"]; Loop [nft 2 1 "5"]].

(** Three mints of [contract9], two of them of token "7". *)
Definition threeMints : list Event :=
  [Loop [nft 1 0 "7"; nft 1 1 "7"]; Loop [nft 2 0 "8"]].

(** A chain whose block lookups all fail, and the timestamps read from
    it. *)
Definition noBlocks : Z -> Completion (option Z) := fun _ => Thrown.
Definition noTimestamps : Z -> option Z := fetchTimestamp true noBlocks.
End Sample.

(** ** The rest of the component

    The parts of the component around the decoder and the aggregator:
    the display helpers, [stopLive], the summary table and the
    grouping of new items by block. *)

(** [s.slice(0, n)] *)
Fixpoint sliceTo (n : nat) (s : string) : string :=
  match n, s with
  | S n', String c s' => String c (sliceTo n' s')
  | _, _ => EmptyString
  end.

(** [s.slice(-n)] for [n > 0]: the last [n] characters, all of [s] when
    it is shorter. *)
Definition sliceLast (n : nat) (s : string) : string :=
  slice (String.length s - n) s.

(** [`${addr.slice(0, 6)}...${addr.slice(-4)}`] *)
Definition shortenAddress (addr : string) : string :=
  (sliceTo 6 addr ++ "..." ++ sliceLast 4 addr)%string.

(** [formatAmount]. [formatUnits] is the ethers function, [None]
    standing for a thrown error; [decimals ?? 18] replaces an absent
    [decimals] only. *)
Definition formatAmount (formatUnits : string -> Z -> option string)
    (amountStr : option string) (decimals : option Z) : string :=
  match amountStr with
  | Some a =>
      if truthy amountStr then
        match formatUnits a (default 18 decimals) with
        | Some s => s
        | None => a
        end
      else "N/A"
  | None => "N/A"
  end.

(** The amount of an ERC-20 row of the feed:
    [formatAmount(it.amount, meta?.decimals)] with
    [meta = metaCache.current.get(it.contract)]. *)
Definition amountCell (formatUnits : string -> Z -> option string)
    (st : State) (it : MintItem.t) : string :=
  formatAmount formatUnits (MintItem.amount it)
    (metaCache st !! MintItem.contract it ≫= ContractMeta.decimals).

(** [stopLive]. The listeners it removes are not part of the state. *)
Definition stopLive (st : State) : State :=
  if negb (wsProvider st) then st
  else {| httpProvider := httpProvider st; wsProvider := wsProvider st;
          subscribing := false; mints := mints st; summaries := summaries st;
          metaCache := metaCache st; fetches := fetches st |}.

(** [(a, b) => b.totalMintEvents - a.totalMintEvents] *)
Definition compareTotals (a b : CollSummary.t) : Q :=
  inject_Z (Z.of_nat (CollSummary.totalMintEvents b) -
            Z.of_nat (CollSummary.totalMintEvents a)).

(** [summaryList], from the array [Object.values(summaries)] gives. *)
Definition summaryList (values : list CollSummary.t) : list CollSummary.t :=
  jsSort compareTotals values.

(** A summary may stand before another in the table. *)
Definition tableOrder (a b : CollSummary.t) : Prop :=
  (CollSummary.totalMintEvents b <= CollSummary.totalMintEvents a)%nat.

(** *** The [byBlock] loop of [processNewItems]

    [newItems] is one array of objects; the groups of [byBlock] hold
    references to the same objects, so a group is kept as the positions
    of its items in the array, and writing a timestamp through a group
    changes the array. A [Map] keeps its keys in insertion order. *)
Definition ByBlock : Type := list (Z * list nat).

(** [byBlock.get(bn)] *)
Fixpoint byBlockGet (m : ByBlock) (bn : Z) : option (list nat) :=
  match m with
  | [] => None
  | (k, arr) :: m' => if Z.eqb k bn then Some arr else byBlockGet m' bn
  end.

(** [byBlock.set(bn, arr)]: a present key keeps its place. *)
Fixpoint byBlockSet (m : ByBlock) (bn : Z) (arr : list nat) : ByBlock :=
  match m with
  | [] => [(bn, arr)]
  | (k, old) :: m' =>
      if Z.eqb k bn then (k, arr) :: m' else (k, old) :: byBlockSet m' bn arr
  end.

(** [const arr = byBlock.get(it.blockNumber) || []; arr.push(it);
    byBlock.set(it.blockNumber, arr);] for the item at position [i]. *)
Definition groupItem (m : ByBlock) (i : nat) (it : MintItem.t) : ByBlock :=
  let arr := default [] (byBlockGet m (MintItem.blockNumber it)) in
  byBlockSet m (MintItem.blockNumber it) (arr ++ [i]).

(** The grouping done by the [for (const it of newItems)] loop, [i]
    being the position of the first of [items]. *)
Fixpoint groupLoop (m : ByBlock) (i : nat) (items : list MintItem.t) : ByBlock :=
  match items with
  | [] => m
  | it :: rest => groupLoop (groupItem m i it) (S i) rest
  end.

(** [arr.forEach((it) => (it.timestamp = ts))] *)
Definition stampGroup (ts : option Z) (arr : list nat) (store : list MintItem.t)
    : list MintItem.t :=
  foldl (fun store i => alter (MintItem.set_timestamp ts) i store) store arr.

(** [for (const [bn, arr] of byBlock) { const ts = await
    fetchTimestamp(bn); arr.forEach(..) }]: the block numbers looked up
    so far, in order, and the array. *)
Definition stampLoop (fetchTs : Z -> option Z) (m : ByBlock)
    (store : list MintItem.t) : list Z * list MintItem.t :=
  foldl (fun acc g => (acc.1 ++ [g.1], stampGroup (fetchTs g.1) g.2 acc.2))
        ([], store) m.

(** Both loops on [newItems]: the lookups issued and the array as
    [setMints] receives it. *)
Definition stampByBlock (fetchTs : Z -> option Z) (newItems : list MintItem.t)
    : list Z * list MintItem.t :=
  stampLoop fetchTs (groupLoop [] 0 newItems) newItems.

(** What the grouping keeps true once the first [k] items of [all] are
    grouped: no block number twice, every group holds positions of
    items of its block only, and every position below [k] is in a
    group. *)
Definition groupedUpTo (all : list MintItem.t) (k : nat) (m : ByBlock) : Prop :=
  NoDup m.*1 /\
  (forall bn arr j, (bn, arr) ∈ m -> j ∈ arr ->
     (j < k)%nat /\ MintItem.blockNumber <$> all !! j = Some bn) /\
  (forall j it, (j < k)%nat -> all !! j = Some it ->
     exists arr, (MintItem.blockNumber it, arr) ∈ m /\ j ∈ arr) /\
  (forall bn, bn ∈ m.*1 ->
     exists j it, (j < k)%nat /\ all !! j = Some it /\ MintItem.blockNumber it = bn).

(** The timestamp an item receives. *)
Definition stamped (fetchTs : Z -> option Z) (it : MintItem.t) : MintItem.t :=
  MintItem.set_timestamp (fetchTs (MintItem.blockNumber it)) it.

(** While the second loop runs, each position of the array holds its
    item as it came or as it has to end. *)
Definition halfStamped (fetchTs : Z -> option Z) (items store : list MintItem.t)
    : Prop :=
  forall j, store !! j = items !! j \/ store !! j = stamped fetchTs <$> items !! j.

(** Every group holds positions of items of its own block. *)
Definition ownBlocks (items : list MintItem.t) (m : ByBlock) : Prop :=
  forall bn arr j, (bn, arr) ∈ m -> j ∈ arr ->
    MintItem.blockNumber <$> items !! j = Some bn.

(** *** What a delivery contributes *)

Section Delivered.
Context {E : Ethers}.

(** The items the listener decodes from a delivery it accepts. *)
Definition decodedItems (d : Delivery) : list MintItem.t :=
  match d_tx d with
  | Thrown => []
  | Normal tx =>
      if allowedTx tx then
        match processLog (d_log d) with
        | Thrown => []
        | Normal newItems => newItems
        end
      else []
  end.

(** The same items as they enter the feed. *)
Definition publishedItems (provider : bool) (d : Delivery) : list MintItem.t :=
  stampItems (fetchTimestamp provider (d_getBlock d)) (decodedItems d).
End Delivered.

(** *** Shapes and invariants used below *)

(** What every item decoded from [log] looks like: it carries the
    block, transaction and normalised address of the log, has no
    timestamp yet, sits at or after the log's index, and has the
    fields of its token type, none of them empty. *)
Definition itemOf (log : Log.t) (c : string) (it : MintItem.t) : Prop :=
  MintItem.blockNumber it = Log.blockNumber log /\
  MintItem.txHash it = Log.transactionHash log /\
  MintItem.contract it = c /\
  MintItem.timestamp it = None /\
  (inject_Z (Log.index log) <= MintItem.logIndex it)%Q /\
  match MintItem.type it with
  | ERC20 => MintItem.tokenId it = None /\ truthy (MintItem.amount it) = true
  | ERC721 => truthy (MintItem.tokenId it) = true /\ MintItem.amount it = None
  | ERC1155 =>
      truthy (MintItem.tokenId it) = true /\ truthy (MintItem.amount it) = true
  end.

(** The type of the first item of a contract. *)
Definition firstType (addr : string) (items : list MintItem.t) : option TokenType :=
  MintItem.type <$> head (mintsOf addr items).

(** Each summary is filed under its own address and has the type of
    the first item of its contract. *)
Definition identityInv (items : list MintItem.t) (st : State) : Prop :=
  forall addr s, summaries st !! addr = Some s ->
    CollSummary.address s = addr /\
    Some (CollSummary.type s) = firstType addr items.

(** A summary shows the metadata the cache holds for its address. *)
Definition metaAgree (st : State) : Prop :=
  forall addr s, summaries st !! addr = Some s ->
    CollSummary.name s = metaCache st !! addr ≫= ContractMeta.name /\
    CollSummary.symbol s = metaCache st !! addr ≫= ContractMeta.symbol /\
    CollSummary.decimals s = metaCache st !! addr ≫= ContractMeta.decimals.

(** The pieces of a trace come in an order the component can produce:
    the second half of an [enrichCollection] call runs after its first
    half issued the lookups, and no first half runs outside the loop
    of [processNewItems]. *)
Fixpoint answered (st : State) (tr : list Event) : Prop :=
  match tr with
  | [] => True
  | ev :: tr' =>
      match ev with
      | Settled addr type _ _ _ => (addr, type) ∈ fetches st
      | Enrich _ _ => False
      | _ => True
      end /\ answered (step st ev) tr'
  end.

(** The fetches issued so far against the items folded so far: one
    fetch for each contract that has an item, made with the type of
    its first item, and the cache holding exactly the fetched
    addresses. *)
Definition fetchLedger (items : list MintItem.t) (st : State) : Prop :=
  NoDup (fetches st).*1 /\
  (forall addr, addr ∈ (fetches st).*1 <-> is_Some (metaCache st !! addr)) /\
  (forall addr, addr ∈ (fetches st).*1 <-> addr ∈ MintItem.contract <$> items) /\
  (forall addr ty, (addr, ty) ∈ fetches st -> Some ty = firstType addr items).

(** ** More sample inputs *)

Module MoreSamples.
(** A resale of token 42: a Transfer whose sender is not the zero
    address. *)
Definition resaleLog : Log.t :=
  Log.mk Sample.contract9
    [TRANSFER_TOPIC; Sample.operatorTopic; Sample.recipientTopic;
     "0x000000000000000000000000000000000000000000000000000000000000002a"]
    "0x" 100 "0xaa" 5.

(** ERC-1155 single mint of 3 units of token 7. *)
Definition singleData : string :=
  "0x00000000000000000000000000000000000000000000000000000000000000070000000000000000000000000000000000000000000000000000000000000003".
Definition singleLog : Log.t :=
  Log.mk Sample.contract9
    [TRANSFER_SINGLE_TOPIC; Sample.operatorTopic; ZERO_TOPIC; Sample.recipientTopic]
    singleData 100 "0xaa" 6.

(** The items of [Sample.batchLog] and of [Sample.erc20Log]. *)
Definition batchItems : list MintItem.t :=
  [MintItem.mk 100 "0xaa" (subIndex 5 0) Sample.contract9 Sample.recipient7
     ERC1155 (Some "1") (Some "10") None;
   MintItem.mk 100 "0xaa" (subIndex 5 1) Sample.contract9 Sample.recipient7
     ERC1155 (Some "2") (Some "20") None;
   MintItem.mk 100 "0xaa" (subIndex 5 2) Sample.contract9 Sample.recipient7
     ERC1155 (Some "3") (Some "30") None].
Definition erc20Item : MintItem.t :=
  MintItem.mk 100 "0xaa" (inject_Z 5) Sample.contract9 Sample.recipient7
    ERC20 None (Some "5") None.

(** A chain that knows block 100 only. *)
Definition chain : Z -> Completion (option Z) :=
  fun bn => if bn =? 100 then Normal (Some 1700000000) else Normal None.

(** A log of a transaction sent to the allow-listed contract, and one
    of a transaction sent elsewhere. *)
Definition accepted (log : Log.t) : Delivery :=
  {| d_tx := Normal (Some {| tx_to := Some "0x00000000009a1E02f00E280dcfA4C81c55724212" |});
     d_getBlock := chain; d_log := log |}.
Definition rejected (log : Log.t) : Delivery :=
  {| d_tx := Normal (Some {| tx_to := Some Sample.recipient7 |});
     d_getBlock := chain; d_log := log |}.

(** A stream with an ERC-721 mint, a rejected log and a batch mint;
    and one in which nothing gets through. *)
Definition stream : list Delivery :=
  [accepted Sample.erc721Log; rejected Sample.erc20Log; accepted Sample.batchLog].
Definition quietStream : list Delivery :=
  [rejected Sample.erc721Log; accepted resaleLog].

(** A loop, the settled lookup of the fetch it issued, and a second
    loop. *)
Definition settledSession : list Event :=
  [Loop [Sample.nft 1 0 "1"];
   Settled Sample.contract9 ERC721 (Some "Nine") (Some "N9") None;
   Loop [Sample.nft 1 1 "2"]].

(** Three new items of two blocks, the blocks interleaved, and a chain
    that answers every lookup. *)
Definition mixedBlocks : list MintItem.t :=
  [Sample.nft 1 0 "1"; Sample.nft 2 0 "2"; Sample.nft 1 1 "3"].
Definition blockTimes : Z -> option Z := fun bn => Some (1700000000 + bn).
End MoreSamples.

(** * Properties of the decoder *)

Section DecoderFacts.
Context {E : Ethers}.

Lemma topicIs_lookup (log : Log.t) (i : nat) (t : string) :
  Log.topics log !! i = Some t -> topicIs log i t = true.
Proof. intros Hi. unfold topicIs. rewrite Hi. apply String.eqb_refl. Qed.

Lemma topicIs_inv (log : Log.t) (i : nat) (t : string) :
  topicIs log i t = true -> Log.topics log !! i = Some t.
Proof.
  unfold topicIs. destruct (Log.topics log !! i) as [s|]; [|discriminate].
  intros Heq. apply String.eqb_eq in Heq. by subst.
Qed.

Lemma switchTopic0_transfer (b : BaseItem) (log : Log.t) :
  Log.topics log !! 0%nat = Some TRANSFER_TOPIC ->
  switchTopic0 b log = transferCase b log.
Proof. intros H0. unfold switchTopic0. by rewrite H0. Qed.

Lemma switchTopic0_single (b : BaseItem) (log : Log.t) :
  Log.topics log !! 0%nat = Some TRANSFER_SINGLE_TOPIC ->
  switchTopic0 b log = transferSingleCase b log.
Proof. intros H0. unfold switchTopic0. by rewrite H0. Qed.

Lemma switchTopic0_batch (b : BaseItem) (log : Log.t) :
  Log.topics log !! 0%nat = Some TRANSFER_BATCH_TOPIC ->
  switchTopic0 b log = transferBatchCase b log.
Proof. intros H0. unfold switchTopic0. by rewrite H0. Qed.

Lemma topicAddress_ok (log : Log.t) (i : nat) (t to : string) rs :
  Log.topics log !! i = Some t ->
  getAddress ("0x" ++ slice 26 t)%string = Some to ->
  topicAddress log i rs = (rs, Some to).
Proof. intros Hi Ha. unfold topicAddress, bind, orThrow, ret. by rewrite Hi, Ha. Qed.

Lemma topicAddress_absent (log : Log.t) (i : nat) rs :
  Log.topics log !! i = None -> topicAddress log i rs = (rs, None).
Proof. intros Hi. unfold topicAddress, bind, orThrow, throw. by rewrite Hi. Qed.

(** The address extraction never pushes. *)
Lemma topicAddress_results (log : Log.t) (i : nat) rs :
  fst (topicAddress log i rs) = rs.
Proof.
  unfold topicAddress, bind, orThrow, ret, throw.
  destruct (Log.topics log !! i) as [t|]; simpl; [|done].
  by destruct (getAddress _).
Qed.

Lemma processLog_unfold (log : Log.t) (c : string) :
  getAddress (Log.address log) = Some c ->
  processLog log =
    Normal (tryCatch (switchTopic0
      {| base_blockNumber := Log.blockNumber log;
         base_txHash := Log.transactionHash log;
         base_logIndex := Log.index log;
         base_contract := c |} log)).
Proof. intros Hc. unfold processLog. by rewrite Hc. Qed.
End DecoderFacts.

(** C1 (amended). For a log whose topic[0] is the Transfer signature and
    whose topic[1] is the zero sentinel, the decoder branches on the
    topic count as follows. With exactly 4 topics it yields one ERC-721
    mint whose tokenId is the decimal numeral of topic[3]. With any
    other count that still has a topic[2] (three topics for a standard
    ERC-20 transfer) it yields one ERC-20 mint whose amount is decoded
    from the data. With fewer than three topics the recipient cannot be
    read and the log yields no MintItem. *)
Theorem transfer_mint_by_topic_count {E : Ethers} (log : Log.t) (c : string) :
  getAddress (Log.address log) = Some c ->
  Log.topics log !! 0%nat = Some TRANSFER_TOPIC ->
  Log.topics log !! 1%nat = Some ZERO_TOPIC ->
  (forall t2 to t3 id,
      length (Log.topics log) = 4%nat ->
      Log.topics log !! 2%nat = Some t2 ->
      getAddress ("0x" ++ slice 26 t2)%string = Some to ->
      Log.topics log !! 3%nat = Some t3 ->
      toBigInt t3 = Some id ->
      processLog log =
        Normal [MintItem.mk (Log.blockNumber log) (Log.transactionHash log)
                  (inject_Z (Log.index log)) c to ERC721
                  (Some (bigintToString id)) None None]) /\
  (forall t2 to amount,
      length (Log.topics log) <> 4%nat ->
      Log.topics log !! 2%nat = Some t2 ->
      getAddress ("0x" ++ slice 26 t2)%string = Some to ->
      decodeUint256 (Log.data log) = Some amount ->
      processLog log =
        Normal [MintItem.mk (Log.blockNumber log) (Log.transactionHash log)
                  (inject_Z (Log.index log)) c to ERC20
                  None (Some (bigintToString amount)) None]) /\
  ((length (Log.topics log) < 3)%nat -> processLog log = Normal []).
Proof.
  intros Hc H0 H1.
  rewrite (processLog_unfold log c Hc), (switchTopic0_transfer _ log H0).
  unfold tryCatch, transferCase. rewrite (topicIs_lookup log 1 _ H1).
  repeat split.
  - intros t2 to t3 id Hlen H2 Hto H3 Hid. unfold bind.
    rewrite (topicAddress_ok log 2 t2 to [] H2 Hto), Hlen. simpl.
    rewrite H3. simpl. by rewrite Hid.
  - intros t2 to amount Hlen H2 Hto Hamt. unfold bind.
    rewrite (topicAddress_ok log 2 t2 to [] H2 Hto).
    destruct (Nat.eqb_spec (length (Log.topics log)) 4) as [Heq|_]; [done|].
    simpl. by rewrite Hamt.
  - intros Hlen. unfold bind.
    rewrite (topicAddress_absent log 2 []); [done|].
    apply lookup_ge_None. lia.
Qed.

(** The three branches of the Transfer case on sample logs: an ERC-721
    mint, a standard ERC-20 mint, and a two-topic log. *)
Lemma transfer_mint_by_topic_count_witness :
  processLog (E := EthersRef.instance) Sample.erc721Log =
    Normal [MintItem.mk 100 "0xaa" (inject_Z 5) Sample.contract9 Sample.recipient7
              ERC721 (Some "42") None None] /\
  processLog (E := EthersRef.instance) Sample.erc20Log =
    Normal [MintItem.mk 100 "0xaa" (inject_Z 5) Sample.contract9 Sample.recipient7
              ERC20 None (Some "5") None] /\
  processLog (E := EthersRef.instance) Sample.twoTopicLog = Normal [].
Proof.
  split; [|split].
  - apply (proj1 (@transfer_mint_by_topic_count EthersRef.instance
             Sample.erc721Log Sample.contract9 eq_refl eq_refl eq_refl)
             Sample.recipientTopic Sample.recipient7
             "0x000000000000000000000000000000000000000000000000000000000000002a" 42);
      reflexivity.
  - apply (proj1 (proj2 (@transfer_mint_by_topic_count EthersRef.instance
             Sample.erc20Log Sample.contract9 eq_refl eq_refl eq_refl))
             Sample.recipientTopic Sample.recipient7 5);
      [simpl; lia | reflexivity..].
  - apply (proj2 (proj2 (@transfer_mint_by_topic_count EthersRef.instance
             Sample.twoTopicLog Sample.contract9 eq_refl eq_refl eq_refl))).
    simpl. lia.
Defined.

(** C1 as stated fails in two places. A Transfer log from the zero
    address with exactly two topics and a well-formed amount payload
    yields no item (reading the recipient from the absent topic[2]
    throws inside the [try]), and one with three topics, a count other
    than 2 and 4, yields an ERC-20 mint. *)
Lemma transfer_topic_count_counterexample :
  (length (Log.topics Sample.twoTopicLog) = 2%nat /\
   Log.topics Sample.twoTopicLog !! 0%nat = Some TRANSFER_TOPIC /\
   Log.topics Sample.twoTopicLog !! 1%nat = Some ZERO_TOPIC /\
   EthersRef.decodeUint256 (Log.data Sample.twoTopicLog) = Some 5 /\
   ~ exists it, processLog (E := EthersRef.instance) Sample.twoTopicLog = Normal [it]) /\
  (length (Log.topics Sample.erc20Log) = 3%nat /\
   Log.topics Sample.erc20Log !! 0%nat = Some TRANSFER_TOPIC /\
   Log.topics Sample.erc20Log !! 1%nat = Some ZERO_TOPIC /\
   processLog (E := EthersRef.instance) Sample.erc20Log <> Normal []).
Proof.
  repeat split; try reflexivity.
  - intros [it Hit]. vm_compute in Hit. discriminate.
  - intros Hnil. vm_compute in Hnil. discriminate.
Qed.

Section PayloadFailure.
Context {E : Ethers}.





End PayloadFailure.



(** Outside C2: when the payload decodes but the two arrays differ in
    length, the loop throws on the first missing value and the items
    pushed before it are returned. *)
Example uneven_batch_keeps_prefix :
  processLog (E := EthersRef.instance) Sample.unevenLog =
    Normal [MintItem.mk 100 "0xaa" (subIndex 5 0) Sample.contract9 Sample.recipient7
              ERC1155 (Some "1") (Some "10") None].
Proof. reflexivity. Qed.

(** * Properties of the feed order *)

Lemma positive_spec (q : Q) : positive q = true <-> (0 < q)%Q.
Proof.
  unfold positive, Qlt. simpl. rewrite Z.ltb_lt. lia.
Qed.

Lemma compareMints_same_block (a b : MintItem.t) :
  MintItem.blockNumber a = MintItem.blockNumber b ->
  compareMints a b = (MintItem.logIndex b - MintItem.logIndex a)%Q.
Proof.
  intros Hbn. unfold compareMints. rewrite Hbn, Z.sub_diag. reflexivity.
Qed.

Lemma compareMints_other_block (a b : MintItem.t) :
  MintItem.blockNumber a <> MintItem.blockNumber b ->
  compareMints a b = inject_Z (MintItem.blockNumber b - MintItem.blockNumber a).
Proof.
  intros Hbn. unfold compareMints.
  destruct (Qeq_bool _ 0) eqn:Hz; [|done].
  apply Qeq_bool_iff in Hz. unfold Qeq in Hz. simpl in Hz. lia.
Qed.

(** The comparator is positive exactly when its second argument has to
    stand before its first. *)
Lemma compareMints_positive (a b : MintItem.t) :
  positive (compareMints a b) = true <-> feedBefore b a.
Proof.
  rewrite positive_spec. unfold feedBefore.
  destruct (Z.eq_dec (MintItem.blockNumber a) (MintItem.blockNumber b)) as [Heq|Hne].
  - rewrite (compareMints_same_block a b Heq). split.
    + intros Hpos. right. split; [done|]. lra.
    + intros [Hlt|[_ Hlt]]; [lia|lra].
  - rewrite (compareMints_other_block a b Hne). split.
    + intros Hpos. left. unfold Qlt in Hpos. simpl in Hpos. lia.
    + intros [Hlt|[Heq _]]; [|congruence]. unfold Qlt. simpl. lia.
Qed.

Lemma feedBefore_feedOrder (a b : MintItem.t) : feedBefore a b -> feedOrder a b.
Proof.
  intros [Hlt|[Heq Hlt]]; [by left|]. right. split; [done|]. by apply Qlt_le_weak.
Qed.

Lemma not_feedBefore_feedOrder (a b : MintItem.t) : ~ feedBefore b a -> feedOrder a b.
Proof.
  unfold feedBefore, feedOrder. intros Hn.
  destruct (Z.lt_trichotomy (MintItem.blockNumber a) (MintItem.blockNumber b))
    as [Hlt|[Heq|Hgt]].
  - exfalso. apply Hn. by left.
  - right. split; [done|]. apply Qnot_lt_le. intros Hlt. apply Hn. right. by split.
  - by left.
Qed.

#[global] Instance feedOrder_trans : Transitive feedOrder.
Proof.
  intros a b c [Hab|[Hab Hab']] [Hbc|[Hbc Hbc']]; unfold feedOrder.
  - left. lia.
  - left. lia.
  - left. lia.
  - right. split; [congruence|]. by apply Qle_trans with (MintItem.logIndex b).
Qed.

Lemma feedOrder_total (a b : MintItem.t) : feedOrder a b \/ feedOrder b a.
Proof.
  unfold feedOrder.
  destruct (Z.lt_trichotomy (MintItem.blockNumber a) (MintItem.blockNumber b))
    as [Hlt|[Heq|Hgt]]; [by right; left| |by left; left].
  destruct (Qlt_le_dec (MintItem.logIndex a) (MintItem.logIndex b)) as [Hlt|Hle].
  - right. right. split; [done|]. by apply Qlt_le_weak.
  - left. right. by split.
Qed.

Section SortFacts.
Context {A : Type} (cmp : A -> A -> Q) (R : relation A).
Context `{!Transitive R}.
Hypothesis cmp_after : forall x y, positive (cmp x y) = true -> R y x.
Hypothesis cmp_keep : forall x y, positive (cmp x y) = false -> R x y.

Lemma insertSorted_perm (x : A) (l : list A) : insertSorted cmp x l ≡ₚ x :: l.
Proof.
  induction l as [|y l IH]; simpl; [done|].
  destruct (positive (cmp x y)); [|done].
  rewrite IH. apply Permutation_swap.
Qed.

Lemma insertSorted_sorted (x : A) (l : list A) :
  StronglySorted R l -> StronglySorted R (insertSorted cmp x l).
Proof.
  induction 1 as [|y l Hl IH Hy]; simpl.
  - repeat constructor.
  - destruct (positive (cmp x y)) eqn:Hxy.
    + constructor; [done|].
      rewrite insertSorted_perm. constructor; [by apply cmp_after|done].
    + assert (R x y) as Hr by by apply cmp_keep.
      constructor; [by constructor|].
      constructor; [done|].
      eapply Forall_impl; [exact Hy|]. intros z Hz. by transitivity y.
Qed.

Lemma jsSort_perm (l : list A) : jsSort cmp l ≡ₚ l.
Proof.
  induction l as [|x l IH]; simpl; [done|].
  by rewrite insertSorted_perm, IH.
Qed.

Lemma jsSort_sorted (l : list A) : StronglySorted R (jsSort cmp l).
Proof.
  induction l as [|x l IH]; simpl; [constructor|].
  by apply insertSorted_sorted.
Qed.
End SortFacts.

Lemma jsSort_compareMints_sorted (l : list MintItem.t) :
  StronglySorted feedOrder (jsSort compareMints l).
Proof.
  apply jsSort_sorted; [apply _| |].
  - intros x y Hpos. apply feedBefore_feedOrder. by apply compareMints_positive.
  - intros x y Hneg. apply not_feedBefore_feedOrder.
    rewrite <- compareMints_positive. by rewrite Hneg.
Qed.

Lemma jsSort_compareMints_perm (l : list MintItem.t) : jsSort compareMints l ≡ₚ l.
Proof.
  apply jsSort_perm.
Qed.

(** The sort is stable: elements the comparator does not separate
    keep their relative order. *)
Lemma insertSorted_stable {A : Type} (cmp : A -> A -> Q) (P : A -> Prop)
    `{!forall x, Decision (P x)} (x : A) (l : list A) :
  (forall y z, P y -> P z -> positive (cmp y z) = false) ->
  filter P (insertSorted cmp x l) = filter P (x :: l).
Proof.
  intros Hsame. induction l as [|y l IH]; simpl; [done|].
  destruct (positive (cmp x y)) eqn:Hxy; [|done].
  rewrite (filter_cons _ y), IH, !filter_cons.
  destruct (decide (P x)) as [Hx|Hx], (decide (P y)) as [Hy|Hy]; try done.
  by rewrite (Hsame x y Hx Hy) in Hxy.
Qed.

Lemma jsSort_stable {A : Type} (cmp : A -> A -> Q) (P : A -> Prop)
    `{!forall x, Decision (P x)} (l : list A) :
  (forall y z, P y -> P z -> positive (cmp y z) = false) ->
  filter P (jsSort cmp l) = filter P l.
Proof.
  intros Hsame. induction l as [|x l IH]; simpl; [done|].
  by rewrite insertSorted_stable, !filter_cons, IH.
Qed.

(** A list already in comparator order is left as it is. *)
Lemma jsSort_sorted_id {A : Type} (cmp : A -> A -> Q) (l : list A) :
  Sorted (fun x y => positive (cmp x y) = false) l -> jsSort cmp l = l.
Proof.
  induction 1 as [|x l Hl IH Hhd]; simpl; [done|].
  rewrite IH. destruct Hhd as [|y l' Hxy]; simpl; [done|]. by rewrite Hxy.
Qed.

(** * Frame properties of the state operations *)

Lemma mints_upsertSummary it st : mints (upsertSummary it st) = mints st.
Proof. reflexivity. Qed.

Lemma metaCache_upsertSummary it st : metaCache (upsertSummary it st) = metaCache st.
Proof. reflexivity. Qed.

Lemma fetches_upsertSummary it st : fetches (upsertSummary it st) = fetches st.
Proof. reflexivity. Qed.

Lemma mints_enrichCollection addr ty st : mints (enrichCollection addr ty st) = mints st.
Proof. unfold enrichCollection. by destruct (_ || _). Qed.

Lemma summaries_enrichCollection addr ty st :
  summaries (enrichCollection addr ty st) = summaries st.
Proof. unfold enrichCollection. by destruct (_ || _). Qed.

Lemma mints_enrichSettled addr ty n s d st :
  mints (enrichSettled addr ty n s d st) = mints st.
Proof. unfold enrichSettled. simpl. by destruct (summaries st !! addr). Qed.

Lemma fetches_enrichSettled addr ty n s d st :
  fetches (enrichSettled addr ty n s d st) = fetches st.
Proof. unfold enrichSettled. simpl. by destruct (summaries st !! addr). Qed.

Lemma mints_ingestItem st it : mints (ingestItem st it) = mints st.
Proof.
  unfold ingestItem. destruct (bool_decide _); [done|].
  by rewrite mints_enrichCollection.
Qed.

Lemma summaries_ingestItem st it :
  summaries (ingestItem st it) = summaries (upsertSummary it st).
Proof.
  unfold ingestItem. destruct (bool_decide _); [done|].
  by rewrite summaries_enrichCollection.
Qed.

Lemma mints_ingestLoop newItems st : mints (ingestLoop newItems st) = mints st.
Proof.
  unfold ingestLoop. revert st.
  induction newItems as [|it l IH]; intros st; simpl; [done|].
  by rewrite IH, mints_ingestItem.
Qed.

Lemma summaries_setMints newItems st : summaries (setMints newItems st) = summaries st.
Proof. reflexivity. Qed.

Lemma mints_processNewItems fetchTs newItems st :
  newItems <> [] ->
  mints (processNewItems fetchTs newItems st) =
    jsSort compareMints (stampItems fetchTs newItems ++ mints st).
Proof.
  intros Hne. destruct newItems as [|it l]; [done|].
  unfold processNewItems, setMints. simpl. by rewrite mints_ingestLoop, mints_ingestItem.
Qed.

(** C6. After [processNewItems] has run on a non-empty sequence, the
    feed is ordered by block number descending and, within a block, by
    log index descending (fractional sub-indexes included), whatever it
    held before; it holds exactly the new items, stamped, and the old
    ones. The same holds when other pieces ran between the loop of the
    call and its publication. *)
Theorem feed_sorted_after_ingest (fetchTs : Z -> option Z)
    (newItems : list MintItem.t) (st : State) :
  newItems <> [] ->
  StronglySorted feedOrder (mints (processNewItems fetchTs newItems st)) /\
  mints (processNewItems fetchTs newItems st) ≡ₚ
    stampItems fetchTs newItems ++ mints st /\
  (forall st', StronglySorted feedOrder (mints (step st' (Publish newItems)))).
Proof.
  intros Hne. rewrite (mints_processNewItems fetchTs newItems st Hne).
  split; [|split].
  - apply jsSort_compareMints_sorted.
  - apply jsSort_compareMints_perm.
  - intros st'. destruct newItems as [|it l]; [done|].
    apply jsSort_compareMints_sorted.
Qed.

(** * The summary counters *)

Lemma mintsOf_app addr l1 l2 : mintsOf addr (l1 ++ l2) = mintsOf addr l1 ++ mintsOf addr l2.
Proof. unfold mintsOf. apply filter_app. Qed.

Lemma mintsOf_own it : mintsOf (MintItem.contract it) [it] = [it].
Proof. unfold mintsOf. rewrite filter_cons. by rewrite decide_True. Qed.

Lemma mintsOf_other addr it : addr <> MintItem.contract it -> mintsOf addr [it] = [].
Proof. intros Hne. unfold mintsOf. rewrite filter_cons. by rewrite decide_False. Qed.

Lemma seenTokenIds_app l1 l2 : seenTokenIds (l1 ++ l2) = seenTokenIds l1 ++ seenTokenIds l2.
Proof. unfold seenTokenIds. apply omap_app. Qed.

Lemma addTokenId_seen it (ids : gset string) :
  addTokenId (MintItem.tokenId it) ids = ids ∪ list_to_set (seenTokenIds [it]).
Proof.
  unfold addTokenId, seenTokenIds. simpl.
  destruct (MintItem.tokenId it) as [id|] eqn:Hid; simpl.
  - destruct (negb (String.eqb id "")); simpl.
    + rewrite (right_id_L ∅ (∪)). apply (comm_L (∪)).
    + by rewrite (right_id_L ∅ (∪)).
  - by rewrite (right_id_L ∅ (∪)).
Qed.

Lemma size_list_to_set_distinct (l : list string) :
  size (list_to_set (C := gset string) l) = distinct l.
Proof.
  unfold distinct. rewrite <- (size_list_to_set (C := gset string) (remove_dups l)).
  - f_equal. apply set_eq. intros x.
    by rewrite !elem_of_list_to_set, elem_of_remove_dups.
  - apply NoDup_remove_dups.
Qed.

Lemma summaries_upsert_other it st addr :
  addr <> MintItem.contract it ->
  summaries (upsertSummary it st) !! addr = summaries st !! addr.
Proof. intros Hne. unfold upsertSummary. simpl. by rewrite lookup_insert_ne. Qed.

Lemma countsInv_upsert items it st :
  countsInv items st -> countsInv (items ++ [it]) (upsertSummary it st).
Proof.
  intros Hinv addr. specialize (Hinv addr). rewrite mintsOf_app.
  destruct (decide (addr = MintItem.contract it)) as [->|Hne].
  - rewrite mintsOf_own. unfold upsertSummary. simpl. rewrite lookup_insert_eq.
    unfold summaryCounts in *. simpl.
    destruct (summaries st !! MintItem.contract it) as [cur|]; simpl.
    + destruct Hinv as (_ & Htot & Hids & _).
      split; [by destruct (mintsOf _ items)|].
      split; [rewrite length_app; simpl; lia|]. split; [|done].
      by rewrite addTokenId_seen, seenTokenIds_app, list_to_set_app_L, Hids.
    + rewrite Hinv. simpl. split; [done|]. split; [done|]. split; [|done].
      by rewrite addTokenId_seen, (left_id_L ∅ (∪)).
  - rewrite (mintsOf_other addr it Hne), app_nil_r.
    by rewrite summaries_upsert_other.
Qed.

Lemma countsInv_summaries items st st' :
  summaries st' = summaries st -> countsInv items st -> countsInv items st'.
Proof. intros Heq Hinv addr. rewrite Heq. apply Hinv. Qed.

Lemma countsInv_ingestLoop newItems items st :
  countsInv items st -> countsInv (items ++ newItems) (ingestLoop newItems st).
Proof.
  unfold ingestLoop. revert items st.
  induction newItems as [|it l IH]; intros items st Hinv; simpl.
  - by rewrite app_nil_r.
  - rewrite (cons_middle it), app_assoc. apply IH.
    apply (countsInv_summaries _ (upsertSummary it st)).
    + apply summaries_ingestItem.
    + by apply countsInv_upsert.
Qed.

Lemma countsInv_enrichSettled addr ty n s d items st :
  countsInv items st -> countsInv items (enrichSettled addr ty n s d st).
Proof.
  intros Hinv a. unfold enrichSettled. simpl.
  destruct (summaries st !! addr) as [cur|] eqn:Hcur; simpl; [|apply Hinv].
  destruct (decide (a = addr)) as [->|Hne].
  - rewrite lookup_insert_eq. specialize (Hinv addr). by rewrite Hcur in Hinv.
  - rewrite lookup_insert_ne by done. apply Hinv.
Qed.

Lemma countsInv_step items ev st :
  countsInv items st -> countsInv (items ++ folded [ev]) (step st ev).
Proof.
  intros Hinv. destruct ev as [newItems|newItems|addr ty|addr ty n s d]; simpl.
  - rewrite app_nil_r. by apply countsInv_ingestLoop.
  - rewrite app_nil_r. by destruct newItems.
  - rewrite app_nil_r. apply (countsInv_summaries _ st); [|done].
    apply summaries_enrichCollection.
  - rewrite app_nil_r. by apply countsInv_enrichSettled.
Qed.

Lemma folded_app tr1 tr2 : folded (tr1 ++ tr2) = folded tr1 ++ folded tr2.
Proof.
  induction tr1 as [|ev tr1 IH]; simpl; [done|].
  destruct ev; simpl; rewrite IH; by rewrite ?app_assoc.
Qed.

Lemma countsInv_run tr items st :
  countsInv items st -> countsInv (items ++ folded tr) (run tr st).
Proof.
  unfold run. revert items st.
  induction tr as [|ev tr IH]; intros items st Hinv.
  - simpl. by rewrite app_nil_r.
  - change (ev :: tr) with ([ev] ++ tr) at 1.
    rewrite folded_app, app_assoc. cbn [foldl]. apply IH. by apply countsInv_step.
Qed.

Lemma countsInv_start st : summaries st = ∅ -> countsInv [] st.
Proof. intros Hst addr. by rewrite Hst, lookup_empty. Qed.

Lemma run_app tr1 tr2 st : run (tr1 ++ tr2) st = run tr2 (run tr1 st).
Proof. unfold run. apply foldl_app. Qed.

(** A [processNewItems] call that nothing interrupts is its loop
    followed by its publication. *)
Lemma processNewItems_run fetchTs newItems st :
  processNewItems fetchTs newItems st =
    run [Loop newItems; Publish (stampItems fetchTs newItems)] st.
Proof. by destruct newItems. Qed.

Lemma counts_after_run st tr addr :
  summaries st = ∅ ->
  summaryCounts (mintsOf addr (folded tr)) (summaries (run tr st) !! addr).
Proof.
  intros Hst. apply (countsInv_run tr [] st). by apply countsInv_start.
Qed.

Lemma distinct_seen_twice (l : list MintItem.t) :
  distinct (seenTokenIds (l ++ l)) = distinct (seenTokenIds l).
Proof.
  rewrite <- !size_list_to_set_distinct, seenTokenIds_app, list_to_set_app_L.
  by rewrite (idemp_L (∪)).
Qed.

Lemma summaryCounts_Some items o :
  items <> [] -> summaryCounts items o ->
  exists s, o = Some s /\
    CollSummary.totalMintEvents s = length items /\
    CollSummary.uniqueTokens s = distinct (seenTokenIds items).
Proof.
  intros Hne Hc. destruct o as [s|]; simpl in Hc; [|done].
  destruct Hc as (_ & Htot & Hids & Huniq). exists s. split; [done|]. split; [done|].
  by rewrite Huniq, Hids, size_list_to_set_distinct.
Qed.

(** C3. In a session that started with no summaries, after any run of
    the component the summary of a contract counts in [totalMintEvents]
    exactly the items of that contract its loops went through, and in
    [uniqueTokens] the distinct non-empty token ids among them; a
    contract without items has no summary. Handing the same items to
    [processNewItems] a second time adds their number to
    [totalMintEvents] once more (doubling it when they were the first)
    and leaves [uniqueTokens] as it was. *)
Theorem summary_counts_ingested (st : State) (tr : list Event) (addr : string) :
  summaries st = ∅ ->
  match summaries (run tr st) !! addr with
  | Some s =>
      CollSummary.totalMintEvents s = length (mintsOf addr (folded tr)) /\
      CollSummary.uniqueTokens s = distinct (seenTokenIds (mintsOf addr (folded tr)))
  | None => mintsOf addr (folded tr) = []
  end /\
  forall fetchTs newItems,
    mintsOf addr newItems <> [] ->
    exists s1 s2,
      summaries (processNewItems fetchTs newItems (run tr st)) !! addr = Some s1 /\
      summaries (processNewItems fetchTs newItems
                   (processNewItems fetchTs newItems (run tr st))) !! addr = Some s2 /\
      (CollSummary.totalMintEvents s2 =
         CollSummary.totalMintEvents s1 + length (mintsOf addr newItems))%nat /\
      CollSummary.uniqueTokens s2 = CollSummary.uniqueTokens s1 /\
      (folded tr = [] ->
       CollSummary.totalMintEvents s2 = (2 * CollSummary.totalMintEvents s1)%nat).
Proof.
  intros Hst. split.
  - pose proof (counts_after_run st tr addr Hst) as Hc.
    destruct (summaries (run tr st) !! addr) as [s|] eqn:Hs; simpl in Hc; [|done].
    destruct Hc as (_ & Htot & Hids & Huniq). split; [done|].
    by rewrite Huniq, Hids, size_list_to_set_distinct.
  - intros fetchTs newItems Hne.
    set (call := [Loop newItems; Publish (stampItems fetchTs newItems)]).
    assert (folded call = newItems) as Hcall by (simpl; by rewrite app_nil_r).
    rewrite !processNewItems_run. fold call. rewrite <- !run_app.
    pose proof (counts_after_run st (tr ++ call) addr Hst) as H1.
    pose proof (counts_after_run st ((tr ++ call) ++ call) addr Hst) as H2.
    rewrite folded_app, Hcall, mintsOf_app in H1.
    rewrite !folded_app, !Hcall, !mintsOf_app in H2.
    apply summaryCounts_Some in H1 as (s1 & Hs1 & Ht1 & Hu1);
      [|by intros [_ ?]%app_eq_nil].
    apply summaryCounts_Some in H2 as (s2 & Hs2 & Ht2 & Hu2);
      [|by intros [_ ?]%app_eq_nil].
    exists s1, s2. split; [done|]. split; [done|].
    rewrite Ht1, Ht2, Hu1, Hu2, !length_app. split; [lia|]. split.
    + rewrite <- !size_list_to_set_distinct, !seenTokenIds_app, !list_to_set_app_L.
      by rewrite <- (assoc_L (∪)), (idemp_L (∪)).
    + intros Hnil. rewrite Hnil. simpl. lia.
Qed.

(** * The metadata cache as fetch marker *)

Lemma enrichCollection_cached addr ty st :
  is_Some (metaCache st !! addr) -> enrichCollection addr ty st = st.
Proof.
  intros Hc. unfold enrichCollection.
  rewrite (bool_decide_eq_true_2 _ Hc). by rewrite orb_true_r.
Qed.

Lemma enrichCollection_fresh addr ty st :
  httpProvider st = true -> metaCache st !! addr = None ->
  metaCache (enrichCollection addr ty st) !! addr = Some ContractMeta.empty /\
  fetches (enrichCollection addr ty st) = fetches st ++ [(addr, ty)].
Proof.
  intros Hp Hc. unfold enrichCollection. rewrite Hp. simpl.
  rewrite bool_decide_eq_false_2.
  - simpl. by rewrite lookup_insert_eq.
  - rewrite Hc. by intros [? ?].
Qed.

Lemma fetchesInv_enrichCollection addr ty st :
  fetchesInv st -> fetchesInv (enrichCollection addr ty st).
Proof.
  intros [Hnd Hin]. unfold enrichCollection.
  destruct (negb (httpProvider st)); simpl; [done|].
  destruct (bool_decide_reflect (is_Some (metaCache st !! addr))) as [Hc|Hc]; [done|].
  split; simpl.
  - rewrite fmap_app. simpl. apply NoDup_app. split; [done|]. split.
    + intros a Ha ->%list_elem_of_singleton. apply Hc. by apply Hin.
    + apply NoDup_singleton.
  - intros a. rewrite fmap_app. simpl.
    intros [Ha | ->%list_elem_of_singleton]%elem_of_app.
    + destruct (decide (a = addr)) as [->|Hne].
      * rewrite lookup_insert_eq. by eexists.
      * rewrite lookup_insert_ne by done. by apply Hin.
    + rewrite lookup_insert_eq. by eexists.
Qed.

Lemma fetchesInv_enrichSettled addr ty n s d st :
  fetchesInv st -> fetchesInv (enrichSettled addr ty n s d st).
Proof.
  intros [Hnd Hin]. unfold fetchesInv. rewrite fetches_enrichSettled.
  split; [done|]. intros a Ha. unfold enrichSettled. simpl.
  assert (is_Some (<[addr := ContractMeta.mk n s
            match ty with ERC20 => d | _ => None end]> (metaCache st) !! a)) as Hsome.
  { destruct (decide (a = addr)) as [->|Hne].
    - rewrite lookup_insert_eq. by eexists.
    - rewrite lookup_insert_ne by done. by apply Hin. }
  by destruct (summaries st !! addr).
Qed.

Lemma fetchesInv_ingestItem st it : fetchesInv st -> fetchesInv (ingestItem st it).
Proof.
  intros Hinv. unfold ingestItem.
  destruct (bool_decide _); [done|]. by apply fetchesInv_enrichCollection.
Qed.

Lemma fetchesInv_ingestLoop newItems st :
  fetchesInv st -> fetchesInv (ingestLoop newItems st).
Proof.
  unfold ingestLoop. revert st.
  induction newItems as [|it l IH]; intros st Hinv; simpl; [done|].
  apply IH. by apply fetchesInv_ingestItem.
Qed.

Lemma fetchesInv_step ev st : fetchesInv st -> fetchesInv (step st ev).
Proof.
  intros Hinv. destruct ev as [newItems|newItems|addr ty|addr ty n s d]; simpl.
  - by apply fetchesInv_ingestLoop.
  - by destruct newItems.
  - by apply fetchesInv_enrichCollection.
  - by apply fetchesInv_enrichSettled.
Qed.

Lemma fetchesInv_run tr st : fetchesInv st -> fetchesInv (run tr st).
Proof.
  unfold run. revert st.
  induction tr as [|ev tr IH]; intros st Hinv; simpl; [done|].
  apply IH. by apply fetchesInv_step.
Qed.

Lemma fetchesInv_start st : fetches st = [] -> fetchesInv st.
Proof.
  intros Hst. unfold fetchesInv. rewrite Hst. simpl.
  split; [apply NoDup_nil_2|]. intros a Ha. by apply not_elem_of_nil in Ha.
Qed.

Lemma filter_fst_absent (addr : string) (l : list (string * TokenType)) :
  addr ∉ l.*1 -> filter (fun f => f.1 = addr) l = [].
Proof.
  induction l as [|[a ty] l IH]; simpl; [done|].
  intros [Hne Hnotin]%not_elem_of_cons. rewrite filter_cons. simpl.
  rewrite decide_False by done. by apply IH.
Qed.

Lemma filter_fst_NoDup (addr : string) (l : list (string * TokenType)) :
  NoDup l.*1 -> (length (filter (fun f => f.1 = addr) l) <= 1)%nat.
Proof.
  induction l as [|[a ty] l IH]; simpl; [lia|].
  intros [Hnotin Hnd]%NoDup_cons. rewrite filter_cons. simpl.
  destruct (decide (a = addr)) as [->|Hne]; [|by apply IH].
  rewrite (filter_fst_absent addr l Hnotin). simpl. lia.
Qed.

(** C5. In a session that started with no fetch issued, however the
    loops, publications, enrichment calls and settled lookups are
    interleaved, the metadata of a contract is fetched at most once.
    The cache entry is the marker: a call of [enrichCollection] for an
    address that has an entry does nothing, and a call for an address
    without one writes the empty placeholder and issues the fetch in
    the same synchronous piece. *)
Theorem metadata_fetched_once (st : State) (tr : list Event) (addr : string) :
  fetches st = [] ->
  (fetchCount addr (run tr st) <= 1)%nat /\
  (forall ty st', is_Some (metaCache st' !! addr) -> enrichCollection addr ty st' = st') /\
  (forall ty st',
      httpProvider st' = true -> metaCache st' !! addr = None ->
      metaCache (enrichCollection addr ty st') !! addr = Some ContractMeta.empty /\
      fetches (enrichCollection addr ty st') = fetches st' ++ [(addr, ty)]).
Proof.
  intros Hst. split; [|split].
  - unfold fetchCount. apply filter_fst_NoDup.
    by apply (fetchesInv_run tr st), fetchesInv_start.
  - intros ty st'. apply enrichCollection_cached.
  - intros ty st'. apply enrichCollection_fresh.
Qed.

(** * Identity and metadata of a summary *)

Lemma upsertSummary_keeps it st addr s :
  summaries st !! addr = Some s ->
  exists s', summaries (upsertSummary it st) !! addr = Some s' /\
    CollSummary.address s' = CollSummary.address s /\
    CollSummary.type s' = CollSummary.type s /\
    CollSummary.name s' = CollSummary.name s /\
    CollSummary.symbol s' = CollSummary.symbol s /\
    CollSummary.decimals s' = CollSummary.decimals s.
Proof.
  intros Hs. destruct (decide (addr = MintItem.contract it)) as [->|Hne].
  - unfold upsertSummary. simpl. rewrite Hs, lookup_insert_eq. by eexists.
  - rewrite summaries_upsert_other by done. by exists s.
Qed.

Lemma enrichSettled_keeps a ty n sy d st addr s :
  summaries st !! addr = Some s ->
  exists s', summaries (enrichSettled a ty n sy d st) !! addr = Some s' /\
    CollSummary.address s' = CollSummary.address s /\
    CollSummary.type s' = CollSummary.type s /\
    CollSummary.tokenIds s' = CollSummary.tokenIds s /\
    CollSummary.uniqueTokens s' = CollSummary.uniqueTokens s /\
    CollSummary.totalMintEvents s' = CollSummary.totalMintEvents s.
Proof.
  intros Hs. unfold enrichSettled. simpl.
  destruct (summaries st !! a) as [cur|] eqn:Hcur; simpl; [|by exists s].
  destruct (decide (addr = a)) as [->|Hne].
  - rewrite lookup_insert_eq. rewrite Hs in Hcur. injection Hcur as <-. by eexists.
  - rewrite lookup_insert_ne by done. by exists s.
Qed.

Lemma step_keeps_identity ev st addr s :
  summaries st !! addr = Some s ->
  exists s', summaries (step st ev) !! addr = Some s' /\
    CollSummary.address s' = CollSummary.address s /\
    CollSummary.type s' = CollSummary.type s.
Proof.
  intros Hs. destruct ev as [newItems|newItems|a ty|a ty n sy d]; simpl.
  - unfold ingestLoop. revert st s Hs.
    induction newItems as [|it l IH]; intros st s Hs; simpl; [by exists s|].
    destruct (upsertSummary_keeps it st addr s Hs) as (s1 & Hs1 & Ha1 & Ht1 & _).
    rewrite <- summaries_ingestItem in Hs1.
    destruct (IH _ _ Hs1) as (s' & Hs' & Ha' & Ht'). exists s'. split; [done|].
    split; congruence.
  - destruct newItems; by exists s.
  - rewrite summaries_enrichCollection. by exists s.
  - destruct (enrichSettled_keeps a ty n sy d st addr s Hs) as (s' & Hs' & Ha & Ht & _).
    by exists s'.
Qed.

(** C10. A summary that exists keeps its [address] and [type] through
    every later piece of the session, whatever the items are that come
    for its contract. An upsert leaves [name], [symbol] and [decimals]
    as they were as well; a settled metadata lookup leaves [tokenIds],
    [uniqueTokens] and [totalMintEvents] as they were. *)
Theorem summary_identity_kept (st : State) (tr : list Event) (addr : string)
    (s : CollSummary.t) :
  summaries st !! addr = Some s ->
  (exists s', summaries (run tr st) !! addr = Some s' /\
     CollSummary.address s' = CollSummary.address s /\
     CollSummary.type s' = CollSummary.type s) /\
  (forall it,
     exists s', summaries (upsertSummary it st) !! addr = Some s' /\
       CollSummary.address s' = CollSummary.address s /\
       CollSummary.type s' = CollSummary.type s /\
       CollSummary.name s' = CollSummary.name s /\
       CollSummary.symbol s' = CollSummary.symbol s /\
       CollSummary.decimals s' = CollSummary.decimals s) /\
  (forall a ty nameRes symbolRes decimalsRes,
     exists s',
       summaries (enrichSettled a ty nameRes symbolRes decimalsRes st) !! addr = Some s' /\
       CollSummary.address s' = CollSummary.address s /\
       CollSummary.type s' = CollSummary.type s /\
       CollSummary.tokenIds s' = CollSummary.tokenIds s /\
       CollSummary.uniqueTokens s' = CollSummary.uniqueTokens s /\
       CollSummary.totalMintEvents s' = CollSummary.totalMintEvents s).
Proof.
  intros Hs. split; [|split].
  - unfold run. revert st s Hs.
    induction tr as [|ev tr IH]; intros st s Hs; simpl; [by exists s|].
    destruct (step_keeps_identity ev st addr s Hs) as (s1 & Hs1 & Ha1 & Ht1).
    destruct (IH _ _ Hs1) as (s' & Hs' & Ha' & Ht'). exists s'. split; [done|].
    split; congruence.
  - intros it. by apply upsertSummary_keeps.
  - intros a ty n sy d. by apply enrichSettled_keeps.
Qed.

(** C7. For a contract that has no summary yet and whose cache entry is
    absent or still the placeholder, creating the summary and settling
    the metadata lookup give the same state in either order, and the
    summary then carries exactly the fields the lookup resolved. When
    the creation comes first it sets no metadata field, so the lookup
    overwrites nothing; when the lookup comes first the creation seeds
    the summary from the cache entry the lookup wrote. *)
Theorem creation_and_resolution_commute (st : State) (item : MintItem.t)
    (ty : TokenType) (nameRes symbolRes : option string) (decimalsRes : option Z) :
  let addr := MintItem.contract item in
  let decimals := match ty with ERC20 => decimalsRes | _ => None end in
  summaries st !! addr = None ->
  metaCache st !! addr = None \/ metaCache st !! addr = Some ContractMeta.empty ->
  upsertSummary item (enrichSettled addr ty nameRes symbolRes decimalsRes st) =
    enrichSettled addr ty nameRes symbolRes decimalsRes (upsertSummary item st) /\
  (exists created,
     summaries (upsertSummary item st) !! addr = Some created /\
     CollSummary.name created = None /\
     CollSummary.symbol created = None /\
     CollSummary.decimals created = None) /\
  (summaries (enrichSettled addr ty nameRes symbolRes decimalsRes st) !! addr = None /\
   metaCache (enrichSettled addr ty nameRes symbolRes decimalsRes st) !! addr =
     Some (ContractMeta.mk nameRes symbolRes decimals)) /\
  (exists final,
     summaries (enrichSettled addr ty nameRes symbolRes decimalsRes
                  (upsertSummary item st)) !! addr = Some final /\
     CollSummary.name final = nameRes /\
     CollSummary.symbol final = symbolRes /\
     CollSummary.decimals final = decimals).
Proof.
  intros addr decimals Hnone Hcache.
  assert (metaCache st !! addr ≫= ContractMeta.name = None /\
          metaCache st !! addr ≫= ContractMeta.symbol = None /\
          metaCache st !! addr ≫= ContractMeta.decimals = None) as (Hn & Hs & Hd).
  { by destruct Hcache as [-> | ->]. }
  split; [|split; [|split]].
  - unfold enrichSettled, upsertSummary. simpl. fold addr. rewrite Hnone. simpl.
    fold addr. rewrite Hnone, !lookup_insert_eq. simpl.
    unfold with_summaries, with_metaCache. simpl. f_equal.
    by rewrite insert_insert_eq.
  - unfold upsertSummary. simpl. fold addr. rewrite Hnone, lookup_insert_eq.
    eexists. split; [done|]. simpl. by rewrite Hn, Hs, Hd.
  - unfold enrichSettled. simpl. rewrite Hnone. simpl.
    by rewrite Hnone, lookup_insert_eq.
  - unfold enrichSettled, upsertSummary. simpl. fold addr.
    rewrite Hnone, !lookup_insert_eq. simpl. rewrite lookup_insert_eq.
    by eexists.
Qed.

(** * The contract filter *)




(** * Independence of the arrival order *)

Lemma countsInv_ingestAll fetchTs calls items st :
  countsInv items st -> countsInv (items ++ concat calls) (ingestAll fetchTs calls st).
Proof.
  unfold ingestAll. revert items st.
  induction calls as [|c calls IH]; intros items st Hinv; simpl.
  - by rewrite app_nil_r.
  - rewrite app_assoc. apply IH. rewrite processNewItems_run.
    replace c with (folded [Loop c; Publish (stampItems fetchTs c)]) at 1
      by (simpl; by rewrite app_nil_r).
    by apply countsInv_run.
Qed.

Lemma stampItems_app fetchTs l1 l2 :
  stampItems fetchTs (l1 ++ l2) = stampItems fetchTs l1 ++ stampItems fetchTs l2.
Proof. unfold stampItems. apply map_app. Qed.

Lemma mints_ingestAll_perm fetchTs calls st :
  mints (ingestAll fetchTs calls st) ≡ₚ stampItems fetchTs (concat calls) ++ mints st.
Proof.
  unfold ingestAll. revert st.
  induction calls as [|c calls IH]; intros st; simpl; [done|].
  rewrite IH. destruct c as [|it c]; [done|].
  rewrite mints_processNewItems by done.
  rewrite jsSort_compareMints_perm, stampItems_app.
  rewrite (app_assoc _ _ (mints st)).
  apply Permutation_app_tail, Permutation_app_comm.
Qed.

Lemma mints_ingestAll_sorted fetchTs calls st :
  StronglySorted feedOrder (mints st) ->
  StronglySorted feedOrder (mints (ingestAll fetchTs calls st)).
Proof.
  unfold ingestAll. revert st.
  induction calls as [|c calls IH]; intros st Hst; simpl; [done|].
  apply IH. destruct c as [|it c]; [done|].
  rewrite mints_processNewItems by done. apply jsSort_compareMints_sorted.
Qed.

Lemma feedOrder_antisym_keys (a b : MintItem.t) :
  feedOrder a b -> feedOrder b a ->
  MintItem.blockNumber a = MintItem.blockNumber b /\
  (MintItem.logIndex a == MintItem.logIndex b)%Q.
Proof.
  intros [Hab|[Hab Hab']] [Hba|[Hba Hba']]; try lia.
  split; [done|]. by apply Qle_antisym.
Qed.

(** Two feeds holding the same items, no two of which share a block
    number and log index, are the same list. *)
Lemma sorted_feed_unique (l1 l2 : list MintItem.t) :
  (forall a b, a ∈ l1 -> b ∈ l1 ->
     MintItem.blockNumber a = MintItem.blockNumber b ->
     (MintItem.logIndex a == MintItem.logIndex b)%Q -> a = b) ->
  StronglySorted feedOrder l1 -> StronglySorted feedOrder l2 -> l1 ≡ₚ l2 -> l1 = l2.
Proof.
  intros Hkeys Hs1 Hs2 Hperm.
  apply (StronglySorted_unique_strong feedOrder); [|done..].
  intros x1 x2 Hx1 Hx2 H12 H21.
  destruct (feedOrder_antisym_keys x1 x2 H12 H21) as [Hbn Hli].
  apply Hkeys; [done| |done..]. by rewrite Hperm.
Qed.

Lemma sameKey_refl (a : MintItem.t) : sameKey a a.
Proof. split; [done|apply Qeq_refl]. Qed.

Lemma sameKey_not_positive (x y z : MintItem.t) :
  sameKey x y -> sameKey x z -> positive (compareMints y z) = false.
Proof.
  intros [Hb1 Hl1] [Hb2 Hl2].
  destruct (positive (compareMints y z)) eqn:Hpos; [|done].
  apply compareMints_positive in Hpos as [Hlt|[_ Hlt]]; [lia|].
  rewrite <- Hl1, <- Hl2 in Hlt. by apply Qlt_irrefl in Hlt.
Qed.

Lemma sorted_stable_unique (l1 l2 : list MintItem.t) :
  l1 ≡ₚ l2 ->
  StronglySorted feedOrder l1 -> StronglySorted feedOrder l2 ->
  (forall x, filter (sameKey x) l1 = filter (sameKey x) l2) ->
  l1 = l2.
Proof.
  revert l2. induction l1 as [|x l1 IH]; intros l2 Hperm Hs1 Hs2 Hstable.
  { by apply Permutation_nil in Hperm. }
  destruct l2 as [|y l2]; [by apply Permutation_nil_r in Hperm|].
  apply StronglySorted_cons in Hs1 as [Hx Hs1].
  apply StronglySorted_cons in Hs2 as [Hy Hs2].
  assert (x = y) as <-.
  { assert (sameKey x y) as Hxy.
    { assert (y ∈ x :: l1) as Hin1 by (rewrite Hperm; left).
      assert (x ∈ y :: l2) as Hin2 by (rewrite <- Hperm; left).
      apply elem_of_cons in Hin1 as [->|Hin1]; [apply sameKey_refl|].
      apply elem_of_cons in Hin2 as [->|Hin2]; [apply sameKey_refl|].
      rewrite Forall_forall in Hx, Hy.
      apply feedOrder_antisym_keys; by auto. }
    specialize (Hstable x). rewrite !filter_cons in Hstable.
    rewrite (decide_True (P := sameKey x x)) in Hstable by apply sameKey_refl.
    rewrite (decide_True (P := sameKey x y)) in Hstable by done.
    by injection Hstable. }
  f_equal. apply IH; [by apply Permutation_cons_inv in Hperm|done..|].
  intros z. specialize (Hstable z). rewrite !filter_cons in Hstable.
  destruct (decide (sameKey z x)); [by injection Hstable|done].
Qed.

(** What ECMAScript asks of [sort] leaves one result only: a
    rearrangement of the feed that is in feed order and keeps the items
    of equal key in their order is the list [jsSort] returns. *)
Lemma jsSort_compareMints_unique (l l' : list MintItem.t) :
  l' ≡ₚ l ->
  StronglySorted feedOrder l' ->
  (forall x, filter (sameKey x) l' = filter (sameKey x) l) ->
  l' = jsSort compareMints l.
Proof.
  intros Hperm Hsorted Hstable. apply sorted_stable_unique.
  - by rewrite jsSort_compareMints_perm.
  - done.
  - apply jsSort_compareMints_sorted.
  - intros x. rewrite Hstable. symmetry. apply jsSort_stable.
    intros y z. apply sameKey_not_positive.
Qed.

Lemma stampItems_elem fetchTs (l : list MintItem.t) (x : MintItem.t) :
  x ∈ stampItems fetchTs l ->
  exists a, a ∈ l /\ x = MintItem.set_timestamp (fetchTs (MintItem.blockNumber a)) a.
Proof.
  unfold stampItems. rewrite list_elem_of_In, in_map_iff.
  intros (a & <- & Hin). exists a. by rewrite list_elem_of_In.
Qed.

(** C4 (amended). Take the same items, split into [processNewItems]
    calls in two different ways and orders, in a session that starts
    empty and with the same timestamps answered. Then every contract
    ends with the same [totalMintEvents], [uniqueTokens] and token-id
    set, and, provided no two different items share block number and
    log index, the feed ends as the same list. *)
Theorem ingest_order_irrelevant (fetchTs : Z -> option Z)
    (calls1 calls2 : list (list MintItem.t)) (st : State) :
  summaries st = ∅ ->
  mints st = [] ->
  concat calls1 ≡ₚ concat calls2 ->
  (forall addr,
     CollSummary.totalMintEvents <$> summaries (ingestAll fetchTs calls1 st) !! addr =
       CollSummary.totalMintEvents <$> summaries (ingestAll fetchTs calls2 st) !! addr /\
     CollSummary.uniqueTokens <$> summaries (ingestAll fetchTs calls1 st) !! addr =
       CollSummary.uniqueTokens <$> summaries (ingestAll fetchTs calls2 st) !! addr /\
     CollSummary.tokenIds <$> summaries (ingestAll fetchTs calls1 st) !! addr =
       CollSummary.tokenIds <$> summaries (ingestAll fetchTs calls2 st) !! addr) /\
  ((forall a b, a ∈ concat calls1 -> b ∈ concat calls1 ->
      MintItem.blockNumber a = MintItem.blockNumber b ->
      (MintItem.logIndex a == MintItem.logIndex b)%Q -> a = b) ->
   mints (ingestAll fetchTs calls1 st) = mints (ingestAll fetchTs calls2 st)).
Proof.
  intros Hsum Hmints Hperm. split.
  - intros addr.
    pose proof (countsInv_ingestAll fetchTs calls1 [] st (countsInv_start st Hsum) addr) as H1.
    pose proof (countsInv_ingestAll fetchTs calls2 [] st (countsInv_start st Hsum) addr) as H2.
    simpl in H1, H2.
    assert (mintsOf addr (concat calls1) ≡ₚ mintsOf addr (concat calls2)) as Hp
      by (unfold mintsOf; by rewrite Hperm).
    unfold summaryCounts in H1, H2.
    destruct (summaries (ingestAll fetchTs calls1 st) !! addr) as [s1|],
             (summaries (ingestAll fetchTs calls2 st) !! addr) as [s2|]; simpl.
    + destruct H1 as (_ & Ht1 & Hi1 & Hu1), H2 as (_ & Ht2 & Hi2 & Hu2).
      assert (CollSummary.tokenIds s1 = CollSummary.tokenIds s2) as Hids.
      { rewrite Hi1, Hi2. unfold seenTokenIds. by rewrite Hp. }
      repeat split; f_equal; [|congruence|done].
      rewrite Ht1, Ht2. by rewrite Hp.
    + destruct H1 as (Hne & _). exfalso. apply Hne.
      apply Permutation_nil. by rewrite Hp, H2.
    + destruct H2 as (Hne & _). exfalso. apply Hne.
      apply Permutation_nil. by rewrite <- Hp, H1.
    + done.
  - intros Hkeys.
    pose proof (mints_ingestAll_perm fetchTs calls1 st) as Hp1.
    pose proof (mints_ingestAll_perm fetchTs calls2 st) as Hp2.
    rewrite Hmints, app_nil_r in Hp1, Hp2.
    apply sorted_feed_unique.
    + intros x y Hx Hy Hbn Hli. rewrite Hp1 in Hx, Hy.
      apply stampItems_elem in Hx as (a & Ha & ->).
      apply stampItems_elem in Hy as (b & Hb & ->).
      simpl in Hbn, Hli. by rewrite (Hkeys a b Ha Hb Hbn Hli).
    + apply mints_ingestAll_sorted. rewrite Hmints. constructor.
    + apply mints_ingestAll_sorted. rewrite Hmints. constructor.
    + rewrite Hp1, Hp2. unfold stampItems. by apply Permutation_map.
Qed.

(** The same two items handed over in the two possible orders, their
    keys being different. *)
Lemma ingest_order_irrelevant_witness :
  mints (ingestAll Sample.noTimestamps
           [[Sample.nft 1 0 "1"]; [Sample.nft 2 0 "2"]] Sample.sessionStart) =
  mints (ingestAll Sample.noTimestamps
           [[Sample.nft 2 0 "2"]; [Sample.nft 1 0 "1"]] Sample.sessionStart).
Proof.
  apply (proj2 (ingest_order_irrelevant Sample.noTimestamps
                  [[Sample.nft 1 0 "1"]; [Sample.nft 2 0 "2"]]
                  [[Sample.nft 2 0 "2"]; [Sample.nft 1 0 "1"]]
                  Sample.sessionStart eq_refl eq_refl (Permutation_swap _ _ []))).
  intros a b Ha Hb Hbn _. simpl in Ha, Hb.
  apply elem_of_cons in Ha as [->|Ha]; apply elem_of_cons in Hb as [->|Hb];
    try apply list_elem_of_singleton in Ha as ->;
    try apply list_elem_of_singleton in Hb as ->;
    try reflexivity; simpl in Hbn; discriminate.
Defined.

(** C4 as stated fails on items that share their sort key. Sub-item
    1000 of a batch logged at index 5 has log index 5 + 1000 * 0.001,
    which is the index 6 of the next log of the block; the comparator
    returns zero on the two, the sort keeps them in arrival order, and
    the two arrival orders end in different feeds. *)
Lemma ingest_order_counterexample :
  concat [[Sample.batchTail]; [Sample.nextLog]] ≡ₚ
    concat [[Sample.nextLog]; [Sample.batchTail]] /\
  Sample.batchTail <> Sample.nextLog /\
  mints (ingestAll Sample.noTimestamps
           [[Sample.batchTail]; [Sample.nextLog]] Sample.sessionStart) <>
  mints (ingestAll Sample.noTimestamps
           [[Sample.nextLog]; [Sample.batchTail]] Sample.sessionStart).
Proof.
  split; [apply Permutation_swap|]. split; [discriminate|].
  vm_compute. discriminate.
Qed.

(** * Batch mints *)






(** * The theorems on sample sessions *)

(** Three mints of [contract9], two of them of token "7", counted from
    the session start. *)
Lemma summary_counts_ingested_witness :
  match summaries (run Sample.threeMints Sample.sessionStart) !! Sample.contract9 with
  | Some s =>
      CollSummary.totalMintEvents s =
        length (mintsOf Sample.contract9 (folded Sample.threeMints)) /\
      CollSummary.uniqueTokens s =
        distinct (seenTokenIds (mintsOf Sample.contract9 (folded Sample.threeMints)))
  | None => mintsOf Sample.contract9 (folded Sample.threeMints) = []
  end.
Proof.
  assert (summaries Sample.sessionStart = ∅) as Hstart by reflexivity.
  destruct (summary_counts_ingested Sample.sessionStart Sample.threeMints
              Sample.contract9 Hstart) as [Hcounts _].
  exact Hcounts.
Defined.

(** The same session, evaluated: three events, two distinct tokens. *)
Example summary_counts_sample :
  (fun s => (CollSummary.totalMintEvents s, CollSummary.uniqueTokens s)) <$>
    summaries (run Sample.threeMints Sample.sessionStart) !! Sample.contract9
  = Some (3%nat, 2%nat) /\
  length (mintsOf Sample.contract9 (folded Sample.threeMints)) = 3%nat /\
  distinct (seenTokenIds (mintsOf Sample.contract9 (folded Sample.threeMints))) = 2%nat.
Proof. vm_compute. done. Qed.

(** Five logs of one contract before any lookup settles. *)
Lemma metadata_fetched_once_witness :
  (fetchCount Sample.contract9 (run Sample.fiveLogs Sample.sessionStart) <= 1)%nat.
Proof.
  assert (fetches Sample.sessionStart = []) as Hstart by reflexivity.
  destruct (metadata_fetched_once Sample.sessionStart Sample.fiveLogs
              Sample.contract9 Hstart) as [Honce _].
  exact Honce.
Defined.

(** In that session the one fetch is the one the first log issued. *)
Example five_logs_one_fetch :
  fetches (run Sample.fiveLogs Sample.sessionStart) = [(Sample.contract9, ERC721)].
Proof. vm_compute. reflexivity. Qed.

(** A new item of block 2 entering a feed that was out of order. *)
Lemma feed_sorted_after_ingest_witness :
  StronglySorted feedOrder
    (mints (processNewItems Sample.noTimestamps [Sample.nft 2 0 "2"] Sample.disordered)) /\
  mints (processNewItems Sample.noTimestamps [Sample.nft 2 0 "2"] Sample.disordered) ≡ₚ
    stampItems Sample.noTimestamps [Sample.nft 2 0 "2"] ++ mints Sample.disordered.
Proof.
  assert ([Sample.nft 2 0 "2"] <> []) as Hne by discriminate.
  destruct (feed_sorted_after_ingest Sample.noTimestamps [Sample.nft 2 0 "2"]
              Sample.disordered Hne) as (Hsorted & Hperm & _).
  exact (conj Hsorted Hperm).
Defined.

Example feed_sorted_sample :
  mints (processNewItems Sample.noTimestamps [Sample.nft 2 0 "2"] Sample.disordered) =
    [Sample.nft 3 0 "3"; Sample.nft 2 0 "2"; Sample.nft 1 0 "1"].
Proof. vm_compute. reflexivity. Qed.

(** A first mint of [contract9] and a lookup that resolved the name
    only, in both orders. *)
Lemma creation_and_resolution_commute_witness :
  let item := Sample.nft 1 0 "1" in
  upsertSummary item
      (enrichSettled (MintItem.contract item) ERC721 (Some "Name") None None
         Sample.sessionStart) =
    enrichSettled (MintItem.contract item) ERC721 (Some "Name") None None
      (upsertSummary item Sample.sessionStart).
Proof.
  intros item.
  assert (summaries Sample.sessionStart !! MintItem.contract item = None) as Hnone
    by (vm_compute; reflexivity).
  assert (metaCache Sample.sessionStart !! MintItem.contract item = None) as Hcache
    by (vm_compute; reflexivity).
  pose proof (creation_and_resolution_commute Sample.sessionStart item ERC721
                (Some "Name") None None) as Hthm.
  cbv zeta in Hthm. specialize (Hthm Hnone). specialize (Hthm (or_introl Hcache)).
  destruct Hthm as [Hcomm _]. exact Hcomm.
Defined.


(** A summary created by an ERC-721 mint keeps its address and type
    when an ERC-20 item of the same contract and a settled lookup
    follow. *)
Lemma summary_identity_kept_witness :
  exists s',
    summaries
      (run [Loop [MintItem.mk 2 "0xbb" (inject_Z 0) Sample.contract9 Sample.recipient7
                    ERC20 None (Some "5") None];
            Settled Sample.contract9 ERC721 (Some "Name") (Some "SYM") None]
           (upsertSummary (Sample.nft 1 0 "1") Sample.sessionStart))
      !! Sample.contract9 = Some s' /\
    CollSummary.address s' = Sample.contract9 /\
    CollSummary.type s' = ERC721.
Proof.
  assert (summaries (upsertSummary (Sample.nft 1 0 "1") Sample.sessionStart)
            !! Sample.contract9 =
          Some (CollSummary.mk Sample.contract9 ERC721 None None None 1 1 {[ "1" ]}))
    as Hcreated by (vm_compute; reflexivity).
  destruct (summary_identity_kept _
              [Loop [MintItem.mk 2 "0xbb" (inject_Z 0) Sample.contract9
                       Sample.recipient7 ERC20 None (Some "5") None];
               Settled Sample.contract9 ERC721 (Some "Name") (Some "SYM") None]
              _ _ Hcreated) as [Hkept _].
  exact Hkept.
Defined.


(** * The listener as a session *)

Lemma httpProvider_enrichCollection addr ty st :
  httpProvider (enrichCollection addr ty st) = httpProvider st.
Proof. unfold enrichCollection. by destruct (_ || _). Qed.

Lemma httpProvider_enrichSettled addr ty n s d st :
  httpProvider (enrichSettled addr ty n s d st) = httpProvider st.
Proof. unfold enrichSettled. simpl. by destruct (summaries st !! addr). Qed.

Lemma httpProvider_ingestLoop newItems st :
  httpProvider (ingestLoop newItems st) = httpProvider st.
Proof.
  unfold ingestLoop. revert st.
  induction newItems as [|it l IH]; intros st; simpl; [done|].
  rewrite IH. unfold ingestItem. destruct (bool_decide _); [done|].
  by rewrite httpProvider_enrichCollection.
Qed.

Lemma httpProvider_step ev st : httpProvider (step st ev) = httpProvider st.
Proof.
  destruct ev as [newItems|newItems|addr ty|addr ty n s d]; simpl.
  - apply httpProvider_ingestLoop.
  - by destruct newItems.
  - apply httpProvider_enrichCollection.
  - apply httpProvider_enrichSettled.
Qed.

Lemma httpProvider_run tr st : httpProvider (run tr st) = httpProvider st.
Proof.
  unfold run. revert st.
  induction tr as [|ev tr IH]; intros st; simpl; [done|].
  by rewrite IH, httpProvider_step.
Qed.

Section ListenerFacts.
Context {E : Ethers}.

(** Handling one delivery is running its pieces. *)
Lemma deliver_run (st : State) (d : Delivery) :
  deliver st d = run (deliveryTrace (httpProvider st) d) st.
Proof.
  unfold deliver, listener, deliveryTrace.
  destruct (d_tx d) as [tx|]; [|done].
  destruct (allowedTx tx); [|done].
  destruct (processLog (d_log d)) as [newItems|]; [|done].
  rewrite <- processNewItems_run. by destruct newItems.
Qed.

Lemma runLogs_run (ds : list Delivery) (st : State) :
  runLogs ds st = run (flat_map (deliveryTrace (httpProvider st)) ds) st.
Proof.
  unfold runLogs. revert st.
  induction ds as [|d ds IH]; intros st; simpl; [done|].
  rewrite run_app, <- deliver_run, IH.
  by rewrite deliver_run, httpProvider_run.
Qed.

(** However many logs of a contract the stream delivers, and whether or
    not their lookups settle in between, the listener fetches its
    metadata at most once. *)
Lemma runLogs_fetches_once (ds : list Delivery) (st : State) (addr : string) :
  fetches st = [] -> (fetchCount addr (runLogs ds st) <= 1)%nat.
Proof.
  intros Hst. rewrite runLogs_run. unfold fetchCount. apply filter_fst_NoDup.
  by apply fetchesInv_run, fetchesInv_start.
Qed.
End ListenerFacts.

(** * startLive *)

(** With both providers present and no subscription running,
    [startLive] leaves an empty feed, no summaries, an empty cache and
    no fetch issued: the session start the theorems above assume. *)
Lemma startLive_resets (st : State) :
  wsProvider st = true -> httpProvider st = true -> subscribing st = false ->
  mints (startLive st) = [] /\
  summaries (startLive st) = ∅ /\
  metaCache (startLive st) = ∅ /\
  fetches (startLive st) = [] /\
  subscribing (startLive st) = true.
Proof. intros Hws Hhttp Hsub. unfold startLive. by rewrite Hws, Hhttp, Hsub. Qed.

Example startLive_sample : startLive Sample.idle = Sample.sessionStart.
Proof. reflexivity. Qed.

Lemma startLive_guard (st : State) :
  wsProvider st = false \/ httpProvider st = false \/ subscribing st = true ->
  startLive st = st.
Proof.
  intros Hg. unfold startLive.
  destruct Hg as [-> | [-> | ->]]; simpl; [done| |];
    destruct (wsProvider st); simpl; try done; by destruct (httpProvider st).
Qed.

(** * The rational model against doubles *)

(** At log index 5 the doubles behave as the rationals do: the first
    sub-items grow strictly and stay below 6, and sub-item 1000 is
    exactly 6. *)
Example double_sub_indexes :
  PrimFloat.eqb (subIndexDouble 5 0) 5 = true /\
  PrimFloat.ltb (subIndexDouble 5 0) (subIndexDouble 5 1) = true /\
  PrimFloat.ltb (subIndexDouble 5 1) (subIndexDouble 5 2) = true /\
  PrimFloat.ltb (subIndexDouble 5 2) 6 = true /\
  PrimFloat.eqb (subIndexDouble 5 1000) 6 = true.
Proof. repeat split; reflexivity. Qed.

(** The two models part where no block can reach: from log index 2^44
    on, one thousandth is less than half the spacing of doubles and
    the sub-index of the second item rounds back to the base. *)
Example double_sub_index_limit :
  PrimFloat.eqb (subIndexDouble 17592186044416 1) 17592186044416 = true.
Proof. reflexivity. Qed.

(** * More on the decoder *)

Lemma pretty_N_go_length (x : N) (s : string) :
  (String.length s <= String.length (pretty_N_go x s))%nat.
Proof.
  revert s. induction (N.lt_wf_0 x) as [x _ IH]; intros s.
  assert (x = 0 \/ 0 < x)%N as [->|Hpos] by lia; [by rewrite pretty_N_go_0|].
  rewrite pretty_N_go_step by done.
  etrans; [|apply IH; by apply N.div_lt]. simpl. lia.
Qed.

Lemma pretty_N_nonempty (x : N) : pretty x <> "".
Proof.
  unfold pretty, pretty_N. case_decide as Hx; [done|].
  rewrite pretty_N_go_step by lia. intros Hnil.
  pose proof (pretty_N_go_length (x `div` 10)
                (String (pretty_N_char (x `mod` 10)) "")) as Hlen.
  rewrite Hnil in Hlen. simpl in Hlen. lia.
Qed.

(** The decimal numeral of a number is never empty, so as a string it
    is truthy, also for zero. *)
Lemma bigintToString_truthy (n : Z) : truthy (Some (bigintToString n)) = true.
Proof.
  unfold truthy, bigintToString. apply negb_true_iff.
  destruct (String.eqb_spec (pretty n) "") as [Hnil|]; [|done].
  exfalso. unfold pretty, pretty_Z in Hnil. destruct n as [|p|p]; [done| |done].
  by apply (pretty_N_nonempty (N.pos p)).
Qed.

Section MoreDecoderFacts.
Context {E : Ethers}.

Lemma topicIs_other (log : Log.t) (i : nat) (t : string) :
  Log.topics log !! i <> Some t -> topicIs log i t = false.
Proof.
  intros Hne. unfold topicIs. destruct (Log.topics log !! i) as [s|]; [|done].
  destruct (String.eqb_spec s t) as [->|]; [by destruct Hne|done].
Qed.

End MoreDecoderFacts.

(** X1. A log that is not a mint yields nothing: one whose first topic
    is none of the three transfer signatures (or that has no topic), a
    Transfer whose sender topic is not the zero address, and an
    ERC-1155 single or batch transfer whose from topic is not the zero
    address. *)
Theorem non_mints_yield_nothing {E : Ethers} (log : Log.t) (c : string) :
  getAddress (Log.address log) = Some c ->
  (forall t0, Log.topics log !! 0%nat = Some t0 ->
     t0 <> TRANSFER_TOPIC /\ t0 <> TRANSFER_SINGLE_TOPIC /\ t0 <> TRANSFER_BATCH_TOPIC) \/
  (Log.topics log !! 0%nat = Some TRANSFER_TOPIC /\
   Log.topics log !! 1%nat <> Some ZERO_TOPIC) \/
  (Log.topics log !! 0%nat = Some TRANSFER_SINGLE_TOPIC /\
   Log.topics log !! 2%nat <> Some ZERO_TOPIC) \/
  (Log.topics log !! 0%nat = Some TRANSFER_BATCH_TOPIC /\
   Log.topics log !! 2%nat <> Some ZERO_TOPIC) ->
  processLog log = Normal [].
Proof.
  intros Hc Hcase. rewrite (processLog_unfold log c Hc). f_equal.
  destruct Hcase as [Hother | [[H0 Hfrom] | [[H0 Hfrom] | [H0 Hfrom]]]].
  - unfold tryCatch, switchTopic0.
    destruct (Log.topics log !! 0%nat) as [t0|]; [|done].
    destruct (Hother t0 eq_refl) as (Ht & Hs & Hb).
    destruct (String.eqb_spec t0 TRANSFER_TOPIC); [done|].
    destruct (String.eqb_spec t0 TRANSFER_SINGLE_TOPIC); [done|].
    by destruct (String.eqb_spec t0 TRANSFER_BATCH_TOPIC).
  - rewrite (switchTopic0_transfer _ log H0). unfold tryCatch, transferCase.
    by rewrite (topicIs_other log 1 _ Hfrom).
  - rewrite (switchTopic0_single _ log H0). unfold tryCatch, transferSingleCase.
    by rewrite (topicIs_other log 2 _ Hfrom).
  - rewrite (switchTopic0_batch _ log H0). unfold tryCatch, transferBatchCase.
    by rewrite (topicIs_other log 2 _ Hfrom).
Qed.

(** X2. An ERC-1155 TransferSingle log from the zero address whose data
    decodes to the pair (id, value) yields exactly one ERC-1155 item,
    with the recipient of topic[3], the decimal numerals of id and
    value, and the log's own index. *)
Theorem single_mint_one_item {E : Ethers} (log : Log.t) (c t3 to : string)
    (id value : Z) :
  getAddress (Log.address log) = Some c ->
  Log.topics log !! 0%nat = Some TRANSFER_SINGLE_TOPIC ->
  Log.topics log !! 2%nat = Some ZERO_TOPIC ->
  Log.topics log !! 3%nat = Some t3 ->
  getAddress ("0x" ++ slice 26 t3)%string = Some to ->
  decodeUint256Pair (Log.data log) = Some (id, value) ->
  processLog log =
    Normal [MintItem.mk (Log.blockNumber log) (Log.transactionHash log)
              (inject_Z (Log.index log)) c to ERC1155
              (Some (bigintToString id)) (Some (bigintToString value)) None].
Proof.
  intros Hc H0 H2 H3 Hto Hdec.
  rewrite (processLog_unfold log c Hc), (switchTopic0_single _ log H0).
  unfold tryCatch, transferSingleCase. rewrite (topicIs_lookup log 2 _ H2).
  unfold bind at 1. rewrite (topicAddress_ok log 3 t3 to [] H3 Hto).
  unfold bind at 1. by rewrite Hdec.
Qed.


Lemma subIndex_ge (base : Z) (i : nat) : (inject_Z base <= subIndex base i)%Q.
Proof.
  unfold subIndex. rewrite <- (Qplus_0_r (inject_Z base)) at 1.
  apply Qplus_le_r. apply Qmult_le_0_compat; [|discriminate].
  change 0%Q with (inject_Z 0). rewrite <- Zle_Qle. lia.
Qed.

Section ItemShape.
Context {E : Ethers}.

Lemma batchLoop_Forall (P : MintItem.t -> Prop) (b : BaseItem) (to : string)
    (ids values : list Z) (n i : nat) (rs : list MintItem.t) :
  (forall j id value,
     P (MintItem.mk (base_blockNumber b) (base_txHash b)
          (subIndex (base_logIndex b) j) (base_contract b) to ERC1155
          (Some (bigintToString id)) (Some (bigintToString value)) None)) ->
  Forall P rs -> Forall P (fst (batchLoop b to ids values n i rs)).
Proof.
  intros Hitem. revert i rs. induction n as [|n IH]; intros i rs Hrs; simpl; [done|].
  unfold bind at 1. destruct (ids !! i) as [id|]; simpl; [|done].
  unfold bind at 1. destruct (values !! i) as [v|]; simpl; [|done].
  unfold bind at 1. simpl. apply IH. apply Forall_app. split; [done|].
  by apply Forall_singleton.
Qed.

(** Whatever the log, the items decoded from it have the shape
    [itemOf] and share one recipient and one token type. *)
Lemma switchTopic0_shape (log : Log.t) (c : string) :
  let b := {| base_blockNumber := Log.blockNumber log;
              base_txHash := Log.transactionHash log;
              base_logIndex := Log.index log;
              base_contract := c |} in
  exists to ty,
    Forall (fun it => itemOf log c it /\ MintItem.to it = to /\ MintItem.type it = ty)
           (tryCatch (switchTopic0 b log)).
Proof.
  intros b. unfold tryCatch, switchTopic0.
  destruct (Log.topics log !! 0%nat) as [t0|]; [|by exists "", ERC20].
  destruct (String.eqb t0 TRANSFER_TOPIC);
    [|destruct (String.eqb t0 TRANSFER_SINGLE_TOPIC);
      [|destruct (String.eqb t0 TRANSFER_BATCH_TOPIC); [|by exists "", ERC20]]].
  - unfold transferCase. destruct (topicIs log 1 ZERO_TOPIC); [|by exists "", ERC20].
    unfold bind at 1. pose proof (topicAddress_results log 2 []) as Hrs.
    destruct (topicAddress log 2 []) as [rs [to|]]; simpl in Hrs; subst rs;
      [|by exists "", ERC20].
    destruct (length (Log.topics log) =? 4)%nat.
    + unfold bind at 1. destruct (Log.topics log !! 3%nat) as [t3|]; simpl;
        [|by exists "", ERC20].
      unfold bind at 1. destruct (toBigInt t3) as [id|]; simpl; [|by exists "", ERC20].
      exists to, ERC721. apply Forall_singleton. repeat split; simpl; try done.
      * apply Qle_refl.
      * apply bigintToString_truthy.
    + unfold bind at 1. destruct (decodeUint256 (Log.data log)) as [amount|]; simpl;
        [|by exists "", ERC20].
      exists to, ERC20. apply Forall_singleton. repeat split; simpl; try done.
      * apply Qle_refl.
      * apply bigintToString_truthy.
  - unfold transferSingleCase.
    destruct (topicIs log 2 ZERO_TOPIC); [|by exists "", ERC20].
    unfold bind at 1. pose proof (topicAddress_results log 3 []) as Hrs.
    destruct (topicAddress log 3 []) as [rs [to|]]; simpl in Hrs; subst rs;
      [|by exists "", ERC20].
    unfold bind at 1. destruct (decodeUint256Pair (Log.data log)) as [iv|]; simpl;
      [|by exists "", ERC20].
    exists to, ERC1155. apply Forall_singleton. repeat split; simpl; try done.
    + apply Qle_refl.
    + apply bigintToString_truthy.
    + apply bigintToString_truthy.
  - unfold transferBatchCase.
    destruct (topicIs log 2 ZERO_TOPIC); [|by exists "", ERC20].
    unfold bind at 1. pose proof (topicAddress_results log 3 []) as Hrs.
    destruct (topicAddress log 3 []) as [rs [to|]]; simpl in Hrs; subst rs;
      [|by exists "", ERC20].
    unfold bind at 1. destruct (decodeUint256Arrays (Log.data log)) as [iv|]; simpl;
      [|by exists "", ERC20].
    exists to, ERC1155. apply batchLoop_Forall; [|done].
    intros j id value. repeat split; simpl; try done.
    + apply subIndex_ge.
    + apply bigintToString_truthy.
    + apply bigintToString_truthy.
Qed.

Lemma processLog_shape (log : Log.t) (c : string) (items : list MintItem.t) :
  getAddress (Log.address log) = Some c ->
  processLog log = Normal items ->
  exists to ty,
    Forall (fun it => itemOf log c it /\ MintItem.to it = to /\ MintItem.type it = ty)
           items.
Proof.
  intros Hc Hitems. rewrite (processLog_unfold log c Hc) in Hitems.
  injection Hitems as <-. apply switchTopic0_shape.
Qed.
End ItemShape.

(** X4. Every item [processLog] returns for a log carries that log's
    block number and transaction hash and the normalised address of
    the log, has no timestamp, and has a log index at or after the
    log's own. Its fields fit its type: an ERC-20 item has an amount
    and no token id, an ERC-721 item a token id and no amount, an
    ERC-1155 item both, and no numeral is empty. All items of one log
    have the same recipient and the same type. *)
Theorem decoded_items_well_formed {E : Ethers} (log : Log.t) (c : string)
    (items : list MintItem.t) :
  getAddress (Log.address log) = Some c ->
  processLog log = Normal items ->
  Forall (itemOf log c) items /\
  (forall a b, a ∈ items -> b ∈ items ->
     MintItem.to a = MintItem.to b /\ MintItem.type a = MintItem.type b).
Proof.
  intros Hc Hitems.
  destruct (processLog_shape log c items Hc Hitems) as (to & ty & Hall).
  rewrite Forall_forall in Hall. split.
  - apply Forall_forall. intros it Hit. by destruct (Hall it Hit).
  - intros a b Ha Hb.
    destruct (Hall a Ha) as (_ & -> & ->), (Hall b Hb) as (_ & -> & ->). done.
Qed.

(** * More on the aggregator *)

(** Induction over the pieces of a session: a property of the items
    folded so far and the state that every operation keeps holds after
    every run. *)
Lemma run_invariant (P : list MintItem.t -> State -> Prop) :
  (forall items it st, P items st -> P (items ++ [it]) (upsertSummary it st)) ->
  (forall items addr ty st, P items st -> P items (enrichCollection addr ty st)) ->
  (forall items l st, P items st -> P items (setMints l st)) ->
  (forall items addr ty n s d st,
     P items st -> P items (enrichSettled addr ty n s d st)) ->
  forall tr items st, P items st -> P (items ++ folded tr) (run tr st).
Proof.
  intros Hupsert Henrich Hmints Hsettled.
  assert (forall l items st, P items st -> P (items ++ l) (ingestLoop l st)) as Hloop.
  { unfold ingestLoop. induction l as [|it l IH]; intros items st HP; simpl.
    - by rewrite app_nil_r.
    - rewrite (cons_middle it), app_assoc. apply IH. unfold ingestItem.
      destruct (bool_decide _); [by apply Hupsert|]. by apply Henrich, Hupsert. }
  unfold run. induction tr as [|ev tr IH]; intros items st HP.
  - simpl. by rewrite app_nil_r.
  - change (ev :: tr) with ([ev] ++ tr) at 1.
    rewrite folded_app, app_assoc. cbn [foldl]. apply IH.
    destruct ev as [newItems|newItems|addr ty|addr ty n s d]; simpl;
      rewrite ?app_nil_r.
    + by apply Hloop.
    + destruct newItems; [done|]. by apply Hmints.
    + by apply Henrich.
    + by apply Hsettled.
Qed.

Lemma firstType_app_other addr items it :
  addr <> MintItem.contract it -> firstType addr (items ++ [it]) = firstType addr items.
Proof.
  intros Hne. unfold firstType. by rewrite mintsOf_app, (mintsOf_other addr it Hne), app_nil_r.
Qed.

Lemma identity_upsert items it st :
  countsInv items st /\ identityInv items st ->
  countsInv (items ++ [it]) (upsertSummary it st) /\
  identityInv (items ++ [it]) (upsertSummary it st).
Proof.
  intros [Hcounts Hident]. split; [by apply countsInv_upsert|].
  intros addr s. destruct (decide (addr = MintItem.contract it)) as [->|Hne].
  - unfold upsertSummary. simpl. rewrite lookup_insert_eq. intros [= <-]. simpl.
    specialize (Hcounts (MintItem.contract it)).
    unfold firstType. rewrite mintsOf_app, mintsOf_own.
    destruct (summaries st !! MintItem.contract it) as [cur|] eqn:Hcur; simpl.
    + destruct (Hident _ _ Hcur) as [Haddr Hty]. split; [done|]. rewrite Hty.
      unfold firstType. simpl in Hcounts. destruct Hcounts as [Hne _].
      by destruct (mintsOf (MintItem.contract it) items).
    + simpl in Hcounts. by rewrite Hcounts.
  - rewrite summaries_upsert_other by done. intros Hs.
    rewrite firstType_app_other by done. by apply Hident.
Qed.

Lemma identity_enrichSettled items addr ty n s d st :
  countsInv items st /\ identityInv items st ->
  countsInv items (enrichSettled addr ty n s d st) /\
  identityInv items (enrichSettled addr ty n s d st).
Proof.
  intros [Hcounts Hident]. split; [by apply countsInv_enrichSettled|].
  intros a s'. unfold enrichSettled. simpl.
  destruct (summaries st !! addr) as [cur|] eqn:Hcur; simpl; [|apply Hident].
  destruct (decide (a = addr)) as [->|Hne].
  - rewrite lookup_insert_eq. intros [= <-]. simpl. by apply Hident.
  - rewrite lookup_insert_ne by done. apply Hident.
Qed.

Lemma identity_run tr st :
  summaries st = ∅ ->
  countsInv (folded tr) (run tr st) /\ identityInv (folded tr) (run tr st).
Proof.
  intros Hst.
  apply (run_invariant (fun items st => countsInv items st /\ identityInv items st)
           identity_upsert) with (items := []).
  - intros items addr ty st' [Hc Hi]. split.
    + apply (countsInv_summaries _ st'); [apply summaries_enrichCollection|done].
    + intros a s'. rewrite summaries_enrichCollection. apply Hi.
  - intros items l st' HP. exact HP.
  - intros items addr ty n s d st'. apply identity_enrichSettled.
  - split; [by apply countsInv_start|]. intros a s'. by rewrite Hst, lookup_empty.
Qed.

(** X5. In a session that started with no summaries, a summary is
    always filed under its own address and has the token type of the
    first item folded for its contract, whatever came later; so the
    rows of the summary table, keyed by address, never share a key. *)
Theorem summary_filed_under_address (st : State) (tr : list Event) :
  summaries st = ∅ ->
  (forall addr s, summaries (run tr st) !! addr = Some s ->
     CollSummary.address s = addr /\
     Some (CollSummary.type s) = firstType addr (folded tr)) /\
  NoDup (CollSummary.address <$> (map_to_list (summaries (run tr st))).*2).
Proof.
  intros Hst. destruct (identity_run tr st Hst) as [_ Hident]. split; [done|].
  assert (CollSummary.address <$> (map_to_list (summaries (run tr st))).*2 =
          (map_to_list (summaries (run tr st))).*1) as ->.
  { rewrite <- list_fmap_compose. apply list_fmap_ext.
    intros i [addr s] Hin. simpl.
    apply list_elem_of_lookup_2, elem_of_map_to_list in Hin. by apply Hident. }
  apply NoDup_fst_map_to_list.
Qed.

Lemma metaAgree_upsert it st : metaAgree st -> metaAgree (upsertSummary it st).
Proof.
  intros Hagree addr s. destruct (decide (addr = MintItem.contract it)) as [->|Hne].
  - unfold upsertSummary. simpl. rewrite lookup_insert_eq. intros [= <-]. simpl.
    destruct (summaries st !! MintItem.contract it) as [cur|] eqn:Hcur; simpl; [|done].
    by apply Hagree.
  - rewrite summaries_upsert_other by done. apply Hagree.
Qed.

Lemma metaAgree_enrichCollection addr ty st :
  metaAgree st -> metaAgree (enrichCollection addr ty st).
Proof.
  intros Hagree. unfold enrichCollection.
  destruct (negb (httpProvider st)); simpl; [done|].
  destruct (bool_decide_reflect (is_Some (metaCache st !! addr))) as [Hc|Hc]; [done|].
  intros a s. simpl. intros Hs. destruct (decide (a = addr)) as [->|Hne].
  - rewrite lookup_insert_eq. simpl.
    destruct (Hagree addr s Hs) as (Hn & Hsy & Hd).
    destruct (metaCache st !! addr) as [m|]; [destruct Hc; by eexists|done].
  - rewrite lookup_insert_ne by done. by apply Hagree.
Qed.

Lemma metaAgree_enrichSettled addr ty n sy d st :
  metaAgree st -> metaAgree (enrichSettled addr ty n sy d st).
Proof.
  intros Hagree a s. unfold enrichSettled. simpl.
  destruct (summaries st !! addr) as [cur|] eqn:Hcur; simpl.
  - destruct (decide (a = addr)) as [->|Hne].
    + rewrite !lookup_insert_eq. by intros [= <-].
    + rewrite !lookup_insert_ne by done. apply Hagree.
  - intros Hs. destruct (decide (a = addr)) as [->|Hne]; [congruence|].
    rewrite lookup_insert_ne by done. by apply Hagree.
Qed.

(** X6. In a session that started with no summaries, through every
    interleaving of loops, publications, enrichment calls and settled
    lookups, the name, symbol and decimals a summary shows are the ones
    the metadata cache holds for its address (none when the cache has
    no entry or the placeholder): the summary table and the feed rows,
    which read the cache, never disagree. *)
Theorem summary_shows_cached_metadata (st : State) (tr : list Event)
    (addr : string) (s : CollSummary.t) :
  summaries st = ∅ ->
  summaries (run tr st) !! addr = Some s ->
  CollSummary.name s = metaCache (run tr st) !! addr ≫= ContractMeta.name /\
  CollSummary.symbol s = metaCache (run tr st) !! addr ≫= ContractMeta.symbol /\
  CollSummary.decimals s = metaCache (run tr st) !! addr ≫= ContractMeta.decimals.
Proof.
  intros Hst.
  assert (metaAgree (run tr st)) as Hagree; [|apply Hagree].
  apply (run_invariant (fun _ st => metaAgree st)) with (items := []).
  - intros _. apply metaAgree_upsert.
  - intros _. apply metaAgree_enrichCollection.
  - intros _ l st' HP. exact HP.
  - intros _. apply metaAgree_enrichSettled.
  - intros a s'. by rewrite Hst, lookup_empty.
Qed.

(** X7. Settled lookups compose by overwriting: of two lookups settled
    for the same address only the later one shows, in the cache and in
    the summary, with all three of its fields, absent ones included;
    lookups settled for different addresses do not affect each other
    and may come in either order. *)
Theorem settled_last_wins (st : State) (a b : string) (ty1 ty2 : TokenType)
    (n1 n2 s1 s2 : option string) (d1 d2 : option Z) :
  enrichSettled a ty2 n2 s2 d2 (enrichSettled a ty1 n1 s1 d1 st) =
    enrichSettled a ty2 n2 s2 d2 st /\
  (a <> b ->
   enrichSettled a ty1 n1 s1 d1 (enrichSettled b ty2 n2 s2 d2 st) =
     enrichSettled b ty2 n2 s2 d2 (enrichSettled a ty1 n1 s1 d1 st)).
Proof.
  split.
  - unfold enrichSettled. simpl.
    destruct (summaries st !! a) as [cur|] eqn:Hcur; simpl.
    + rewrite lookup_insert_eq. unfold with_summaries, with_metaCache. simpl.
      by rewrite !insert_insert_eq.
    + rewrite Hcur. unfold with_metaCache. simpl. by rewrite insert_insert_eq.
  - intros Hne. unfold enrichSettled. simpl.
    destruct (summaries st !! a) as [ca|] eqn:Ha,
             (summaries st !! b) as [cb|] eqn:Hb; simpl;
      rewrite ?lookup_insert_ne, ?Ha, ?Hb by done; simpl;
      unfold with_summaries, with_metaCache; simpl; f_equal;
      by rewrite ?(insert_insert_ne _ a b).
Qed.

(** X8. Two upserts commute, as whole states, when their items belong
    to different contracts or have the same token type. *)
Theorem upserts_commute (st : State) (a b : MintItem.t) :
  MintItem.contract a <> MintItem.contract b \/ MintItem.type a = MintItem.type b ->
  upsertSummary a (upsertSummary b st) = upsertSummary b (upsertSummary a st).
Proof.
  intros Hcase. unfold upsertSummary, with_summaries. simpl.
  destruct (decide (MintItem.contract a = MintItem.contract b)) as [Heq|Hne].
  - destruct Hcase as [Hne|Hty]; [done|]. rewrite Heq, !lookup_insert_eq. simpl.
    f_equal. rewrite !insert_insert_eq. f_equal.
    assert (forall ids : gset string,
              addTokenId (MintItem.tokenId a) (addTokenId (MintItem.tokenId b) ids) =
              addTokenId (MintItem.tokenId b) (addTokenId (MintItem.tokenId a) ids))
      as Hids.
    { intros ids. rewrite !addTokenId_seen.
      rewrite <- !(assoc_L (∪)). f_equal. apply (comm_L (∪)). }
    destruct (summaries st !! MintItem.contract b) as [cur|]; simpl;
      rewrite Hids, ?Hty; done.
  - rewrite !lookup_insert_ne by done. f_equal.
    by rewrite insert_insert_ne.
Qed.

(** * The grouping by block *)

Lemma byBlockSet_keys (m : ByBlock) (bn : Z) (arr : list nat) :
  (byBlockSet m bn arr).*1 = if decide (bn ∈ m.*1) then m.*1 else m.*1 ++ [bn].
Proof.
  induction m as [|[k old] m IH]; [done|].
  cbn [byBlockSet]. destruct (Z.eqb_spec k bn) as [->|Hne]; rewrite !fmap_cons; cbn [fst].
  - rewrite decide_True by left. done.
  - rewrite IH. destruct (decide (bn ∈ m.*1)) as [Hin|Hnin].
    + rewrite decide_True by (by right). done.
    + rewrite decide_False; [done|]. rewrite elem_of_cons. by intros [?|?].
Qed.

Lemma byBlockSet_NoDup (m : ByBlock) (bn : Z) (arr : list nat) :
  NoDup m.*1 -> NoDup (byBlockSet m bn arr).*1.
Proof.
  intros Hnd. rewrite byBlockSet_keys. case_decide as Hin; [done|].
  apply NoDup_app. split; [done|]. split; [|apply NoDup_singleton].
  by intros k Hk ->%list_elem_of_singleton.
Qed.

Lemma elem_of_byBlockSet (m : ByBlock) (bn : Z) (arr : list nat) (k : Z) (a : list nat) :
  NoDup m.*1 ->
  (k, a) ∈ byBlockSet m bn arr <->
    (k = bn /\ a = arr) \/ (k <> bn /\ (k, a) ∈ m).
Proof.
  induction m as [|[k0 old] m IH]; simpl; intros Hnd.
  - rewrite list_elem_of_singleton. split.
    + intros [= -> ->]. by left.
    + intros [[-> ->]|[_ Hin]]; [done|]. by apply not_elem_of_nil in Hin.
  - apply NoDup_cons in Hnd as [Hk0 Hnd].
    destruct (Z.eqb_spec k0 bn) as [->|Hne]; rewrite !elem_of_cons.
    + split.
      * intros [[= -> ->]|Hin]; [by left|]. right. split; [|by right].
        intros ->. apply Hk0. apply list_elem_of_fmap. by exists (bn, a).
      * intros [[-> ->]|[Hkb [[= -> ->]|Hin]]]; [by left|done|by right].
    + rewrite (IH Hnd). split.
      * intros [[= -> ->]|[[-> ->]|[Hkb Hin]]].
        -- right. split; [done|by left].
        -- by left.
        -- right. split; [done|by right].
      * intros [[-> ->]|[Hkb [[= -> ->]|Hin]]].
        -- right. by left.
        -- by left.
        -- right. right. by split.
Qed.

Lemma byBlockGet_Some (m : ByBlock) (bn : Z) (arr : list nat) :
  byBlockGet m bn = Some arr -> (bn, arr) ∈ m.
Proof.
  induction m as [|[k old] m IH]; simpl; [done|].
  destruct (Z.eqb_spec k bn) as [->|Hne].
  - intros [= ->]. left.
  - intros Hget. right. by apply IH.
Qed.

Lemma byBlockGet_elem (m : ByBlock) (bn : Z) (arr : list nat) :
  NoDup m.*1 -> (bn, arr) ∈ m -> byBlockGet m bn = Some arr.
Proof.
  induction m as [|[k old] m IH]; simpl; intros Hnd Hin.
  - by apply not_elem_of_nil in Hin.
  - apply NoDup_cons in Hnd as [Hk Hnd].
    apply elem_of_cons in Hin as [[= <- <-]|Hin].
    + by rewrite Z.eqb_refl.
    + destruct (Z.eqb_spec k bn) as [->|Hne]; [|by apply IH].
      destruct Hk. apply list_elem_of_fmap. by exists (bn, arr).
Qed.

Lemma groupedUpTo_groupItem (all : list MintItem.t) (k : nat) (m : ByBlock)
    (it : MintItem.t) :
  all !! k = Some it ->
  groupedUpTo all k m -> groupedUpTo all (S k) (groupItem m k it).
Proof.
  intros Hk (Hnd & Hin & Hcov & Hkeys). unfold groupItem.
  set (bn := MintItem.blockNumber it).
  set (old := default [] (byBlockGet m bn)).
  assert (forall j, j ∈ old -> (j < k)%nat /\ MintItem.blockNumber <$> all !! j = Some bn)
    as Hold.
  { intros j Hj. unfold old in Hj.
    destruct (byBlockGet m bn) as [arr|] eqn:Hget; simpl in Hj.
    - apply (Hin bn arr); [by apply byBlockGet_Some|done].
    - by apply not_elem_of_nil in Hj. }
  split; [by apply byBlockSet_NoDup|]. split; [|split].
  - intros b arr j Hbarr Hj.
    apply (proj1 (elem_of_byBlockSet m bn _ b arr Hnd)) in Hbarr
      as [[-> ->]|[Hb Harr]].
    + apply elem_of_app in Hj as [Hj| ->%list_elem_of_singleton].
      * destruct (Hold j Hj). split; [lia|done].
      * split; [lia|]. by rewrite Hk.
    + destruct (Hin b arr j Harr Hj). split; [lia|done].
  - intros j it' Hj Hit'. destruct (decide (j = k)) as [->|Hjk].
    + rewrite Hk in Hit'. injection Hit' as <-. exists (old ++ [k]). split.
      * apply (proj2 (elem_of_byBlockSet m bn _ _ _ Hnd)). by left.
      * apply elem_of_app. right. left.
    + destruct (Hcov j it' ltac:(lia) Hit') as (arr & Harr & Hjarr).
      destruct (decide (MintItem.blockNumber it' = bn)) as [Hb|Hb].
      * exists (old ++ [k]). split.
        -- apply (proj2 (elem_of_byBlockSet m bn _ _ _ Hnd)). left. by rewrite Hb.
        -- apply elem_of_app. left. unfold old.
           rewrite Hb in Harr. by rewrite (byBlockGet_elem m bn arr Hnd Harr).
      * exists arr. split; [|done].
        apply (proj2 (elem_of_byBlockSet m bn _ _ _ Hnd)). by right.
  - intros b Hb. rewrite byBlockSet_keys in Hb.
    assert (b ∈ m.*1 \/ b = bn) as [Hbm| ->].
    { case_decide; [by left|].
      apply elem_of_app in Hb as [?| ->%list_elem_of_singleton]; [by left|by right]. }
    + destruct (Hkeys b Hbm) as (j & it' & Hj & Hit' & Hbn).
      exists j, it'. split; [lia|done].
    + exists k, it. split; [lia|done].
Qed.

Lemma groupedUpTo_groupLoop (pre rest : list MintItem.t) (m : ByBlock) :
  groupedUpTo (pre ++ rest) (length pre) m ->
  groupedUpTo (pre ++ rest) (length (pre ++ rest)) (groupLoop m (length pre) rest).
Proof.
  revert pre m. induction rest as [|it rest IH]; intros pre m Hinv; simpl.
  - by rewrite app_nil_r in *.
  - rewrite (cons_middle it), app_assoc in *.
    replace (S (length pre)) with (length (pre ++ [it]))
      by (rewrite length_app; simpl; lia).
    apply IH. rewrite length_app. simpl. rewrite Nat.add_1_r.
    apply groupedUpTo_groupItem; [|done].
    rewrite <- app_assoc. simpl. by apply list_lookup_middle.
Qed.

Lemma groupedUpTo_all (newItems : list MintItem.t) :
  groupedUpTo newItems (length newItems) (groupLoop [] 0 newItems).
Proof.
  apply (groupedUpTo_groupLoop [] newItems []). simpl.
  split; [apply NoDup_nil_2|]. split; [|split].
  - intros bn arr j Hin. by apply not_elem_of_nil in Hin.
  - intros j it Hj. lia.
  - intros bn Hin. by apply not_elem_of_nil in Hin.
Qed.

Lemma stampLoop_lookups (fetchTs : Z -> option Z) (m : ByBlock)
    (store : list MintItem.t) :
  (stampLoop fetchTs m store).1 = m.*1.
Proof.
  unfold stampLoop.
  assert (forall acc,
            (foldl (fun acc g => (acc.1 ++ [g.1], stampGroup (fetchTs g.1) g.2 acc.2))
                   acc m).1 = acc.1 ++ m.*1) as Hgen.
  { induction m as [|g m IH]; intros acc; simpl; [by rewrite app_nil_r|].
    rewrite IH. simpl. by rewrite <- app_assoc. }
  by rewrite Hgen.
Qed.

(** X9. [processNewItems] looks up the timestamp of each block number
    that occurs among the new items exactly once, however many items
    share it, and looks up no other block. *)
Theorem one_lookup_per_block (fetchTs : Z -> option Z) (newItems : list MintItem.t) :
  NoDup (stampByBlock fetchTs newItems).1 /\
  (forall bn, bn ∈ (stampByBlock fetchTs newItems).1 <->
              bn ∈ MintItem.blockNumber <$> newItems) /\
  (length (stampByBlock fetchTs newItems).1 <= length newItems)%nat.
Proof.
  unfold stampByBlock. rewrite stampLoop_lookups.
  destruct (groupedUpTo_all newItems) as (Hnd & Hin & Hcov & Hkeys).
  assert (forall bn, bn ∈ (groupLoop [] 0 newItems).*1 <->
                     bn ∈ MintItem.blockNumber <$> newItems) as Hiff.
  { intros bn. split.
    - intros Hbn. destruct (Hkeys bn Hbn) as (j & it & _ & Hit & <-).
      apply list_elem_of_fmap. exists it. split; [done|].
      by apply list_elem_of_lookup_2 with j.
    - intros (it & -> & Hit)%list_elem_of_fmap.
      apply list_elem_of_lookup in Hit as [j Hj].
      destruct (Hcov j it (lookup_lt_Some _ _ _ Hj) Hj) as (arr & Harr & _).
      apply list_elem_of_fmap. by exists (MintItem.blockNumber it, arr). }
  split; [done|]. split; [done|].
  rewrite <- (length_fmap MintItem.blockNumber newItems).
  apply submseteq_length, NoDup_submseteq; [done|]. intros bn. apply Hiff.
Qed.

Lemma set_timestamp_twice (ts ts' : option Z) (it : MintItem.t) :
  MintItem.set_timestamp ts (MintItem.set_timestamp ts' it) = MintItem.set_timestamp ts it.
Proof. by destruct it. Qed.

Lemma stampItems_fmap (fetchTs : Z -> option Z) (l : list MintItem.t) :
  stampItems fetchTs l = stamped fetchTs <$> l.
Proof. unfold stampItems, stamped. induction l as [|it l IH]; simpl; by f_equal. Qed.

(** Writing a timestamp through a group changes the items at the
    group's positions and no other. *)
Lemma stampGroup_lookup (ts : option Z) (arr : list nat) (store : list MintItem.t)
    (j : nat) :
  stampGroup ts arr store !! j =
    if decide (j ∈ arr) then MintItem.set_timestamp ts <$> store !! j else store !! j.
Proof.
  unfold stampGroup. revert store. induction arr as [|i arr IH]; intros store.
  - destruct (decide (j ∈ [])) as [Hin|_]; [|done]. by apply not_elem_of_nil in Hin.
  - cbn [foldl]. rewrite IH. destruct (decide (j = i)) as [->|Hji].
    + rewrite list_lookup_alter_eq.
      destruct (decide (i ∈ i :: arr)) as [_|Hn]; [|by destruct Hn; left].
      destruct (decide (i ∈ arr)); [|done].
      destruct (store !! i) as [it|]; simpl; [|done]. by rewrite set_timestamp_twice.
    + rewrite list_lookup_alter_ne by done.
      destruct (decide (j ∈ arr)) as [Hin|Hnin];
        destruct (decide (j ∈ i :: arr)) as [Hin'|Hnin']; try done.
      * destruct Hnin'. by right.
      * apply elem_of_cons in Hin' as [?|?]; done.
Qed.

(** The array side of the second loop, on its own. *)
Lemma stampLoop_store (fetchTs : Z -> option Z) (m : ByBlock) (store : list MintItem.t) :
  (stampLoop fetchTs m store).2 =
    foldl (fun store g => stampGroup (fetchTs g.1) g.2 store) store m.
Proof.
  unfold stampLoop.
  assert (forall acc : list Z * list MintItem.t,
    (foldl (fun acc g => (acc.1 ++ [g.1], stampGroup (fetchTs g.1) g.2 acc.2)) acc m).2 =
    foldl (fun store g => stampGroup (fetchTs g.1) g.2 store) acc.2 m) as H.
  { induction m as [|g m IH]; intros acc; [done|]. cbn [foldl]. by rewrite IH. }
  apply H.
Qed.

Section StampLoop.
Context (fetchTs : Z -> option Z) (items : list MintItem.t).

Lemma stampGroup_stamped (bn : Z) (arr : list nat) (store : list MintItem.t) (j : nat) :
  (forall i, i ∈ arr -> MintItem.blockNumber <$> items !! i = Some bn) ->
  halfStamped fetchTs items store ->
  (j ∈ arr \/ store !! j = stamped fetchTs <$> items !! j ->
   stampGroup (fetchTs bn) arr store !! j = stamped fetchTs <$> items !! j) /\
  (j ∉ arr -> stampGroup (fetchTs bn) arr store !! j = store !! j).
Proof.
  intros Harr Hhalf. rewrite stampGroup_lookup.
  destruct (decide (j ∈ arr)) as [Hin|Hnin].
  - split; [|done]. intros _. specialize (Harr j Hin).
    destruct (items !! j) as [it|] eqn:Hit; simpl in Harr; [|done].
    injection Harr as Hbn.
    destruct (Hhalf j) as [-> | ->]; rewrite Hit; simpl; f_equal;
      unfold stamped; rewrite ?set_timestamp_twice; by rewrite Hbn.
  - split; [|done]. by intros [?|?].
Qed.

Lemma stampLoop_stamped (m : ByBlock) (store : list MintItem.t) :
  ownBlocks items m -> halfStamped fetchTs items store ->
  forall j,
    (store !! j = stamped fetchTs <$> items !! j \/
     (exists bn arr, (bn, arr) ∈ m /\ j ∈ arr)) ->
    (stampLoop fetchTs m store).2 !! j = stamped fetchTs <$> items !! j.
Proof.
  rewrite stampLoop_store.
  revert store. induction m as [|[bn arr] m IH]; intros store Hcons Hhalf j Hj.
  - simpl. destruct Hj as [Hj|(bn & arr & Hin & _)]; [done|].
    by apply not_elem_of_nil in Hin.
  - cbn [foldl fst snd].
    assert (forall i, i ∈ arr -> MintItem.blockNumber <$> items !! i = Some bn) as Harr.
    { intros i Hi. apply (Hcons bn arr i); [left|done]. }
    apply IH.
    + intros b a i Hin. apply Hcons. by right.
    + intros i. destruct (decide (i ∈ arr)) as [Hi|Hi].
      * right. by apply (stampGroup_stamped bn arr store i Harr Hhalf); left.
      * rewrite (proj2 (stampGroup_stamped bn arr store i Harr Hhalf) Hi). apply Hhalf.
    + destruct Hj as [Hj|(b & a & Hin & Hja)].
      * left. by apply (stampGroup_stamped bn arr store j Harr Hhalf); right.
      * apply elem_of_cons in Hin as [[= -> ->]|Hin].
        -- left. by apply (stampGroup_stamped bn arr store j Harr Hhalf); left.
        -- right. by exists b, a.
Qed.
End StampLoop.

Lemma stampLoop_length (fetchTs : Z -> option Z) (m : ByBlock) (store : list MintItem.t) :
  length (stampLoop fetchTs m store).2 = length store.
Proof.
  rewrite stampLoop_store.
  revert store. induction m as [|[bn arr] m IH]; intros store; [done|].
  cbn [foldl fst snd]. rewrite IH. unfold stampGroup. clear IH. revert store.
  induction arr as [|i arr IHarr]; intros store; simpl; [done|].
  by rewrite IHarr, length_alter.
Qed.

(** X10. After the two loops of [processNewItems] over the shared item
    objects, the array handed to [setMints] holds the same items in the
    same order, each with the timestamp looked up for its own block
    number and every other field untouched: grouping by block and
    writing through the groups loses and mixes up nothing. *)
Theorem stamping_through_groups (fetchTs : Z -> option Z)
    (newItems : list MintItem.t) :
  (stampByBlock fetchTs newItems).2 = stampItems fetchTs newItems /\
  length (stampByBlock fetchTs newItems).2 = length newItems /\
  (forall j it, newItems !! j = Some it ->
     exists it',
       (stampByBlock fetchTs newItems).2 !! j = Some it' /\
       MintItem.timestamp it' = fetchTs (MintItem.blockNumber it) /\
       MintItem.set_timestamp (MintItem.timestamp it) it' = it).
Proof.
  assert ((stampByBlock fetchTs newItems).2 = stampItems fetchTs newItems) as Heq.
  { rewrite stampItems_fmap. apply list_eq. intros j. rewrite list_lookup_fmap.
    unfold stampByBlock.
    destruct (groupedUpTo_all newItems) as (Hnd & Hin & Hcov & Hkeys).
    destruct (newItems !! j) as [it|] eqn:Hit.
    - rewrite <- Hit. apply stampLoop_stamped.
      + intros bn arr i Hbarr Hi. by apply (Hin bn arr i).
      + intros i. by left.
      + right. destruct (Hcov j it (lookup_lt_Some _ _ _ Hit) Hit) as (arr & Harr & Hj).
        by exists (MintItem.blockNumber it), arr.
    - simpl. apply lookup_ge_None. rewrite stampLoop_length.
      by apply lookup_ge_None. }
  split; [done|]. rewrite Heq. split.
  - unfold stampItems. apply length_map.
  - intros j it Hit. rewrite stampItems_fmap, list_lookup_fmap, Hit. simpl.
    eexists. split; [done|]. split; [done|]. by destruct it.
Qed.

(** * The fetches of a session *)

Lemma firstType_app_seen addr items l :
  addr ∈ MintItem.contract <$> items ->
  firstType addr (items ++ l) = firstType addr items.
Proof.
  intros (it & -> & Hin)%list_elem_of_fmap. unfold firstType. rewrite mintsOf_app.
  assert (it ∈ mintsOf (MintItem.contract it) items) as Hit.
  { unfold mintsOf. by apply list_elem_of_filter. }
  by destruct (mintsOf (MintItem.contract it) items); [apply not_elem_of_nil in Hit|].
Qed.

Lemma firstType_app_new items it :
  MintItem.contract it ∉ MintItem.contract <$> items ->
  firstType (MintItem.contract it) (items ++ [it]) = Some (MintItem.type it).
Proof.
  intros Hnew. unfold firstType. rewrite mintsOf_app, mintsOf_own.
  assert (mintsOf (MintItem.contract it) items = []) as ->; [|done].
  destruct (mintsOf (MintItem.contract it) items) as [|x l] eqn:Hl; [done|].
  assert (x ∈ mintsOf (MintItem.contract it) items) as Hx by (rewrite Hl; left).
  unfold mintsOf in Hx. apply list_elem_of_filter in Hx as [Hc Hx].
  destruct Hnew. apply list_elem_of_fmap. by exists x.
Qed.

Lemma fetchLedger_ingestItem items it st :
  httpProvider st = true -> fetchLedger items st ->
  fetchLedger (items ++ [it]) (ingestItem st it).
Proof.
  intros Hp (Hnd & Hcache & Hitems & Htypes). unfold ingestItem.
  rewrite metaCache_upsertSummary.
  destruct (bool_decide_reflect (is_Some (metaCache st !! MintItem.contract it)))
    as [Hc|Hc].
  - assert (MintItem.contract it ∈ MintItem.contract <$> items) as Hseen.
    { by apply Hitems, Hcache. }
    unfold fetchLedger. rewrite fetches_upsertSummary, metaCache_upsertSummary.
    split; [done|]. split; [done|]. split.
    + intros addr. rewrite fmap_app, elem_of_app, Hitems. simpl.
      rewrite list_elem_of_singleton. split; [by left|]. by intros [?| ->].
    + intros addr ty Hin. rewrite firstType_app_seen; [by apply Htypes|].
      apply Hitems. apply list_elem_of_fmap. by exists (addr, ty).
  - assert (metaCache (upsertSummary it st) !! MintItem.contract it = None) as Hnone.
    { rewrite metaCache_upsertSummary. by apply eq_None_not_Some. }
    assert (httpProvider (upsertSummary it st) = true) as Hp' by done.
    destruct (enrichCollection_fresh (MintItem.contract it) (MintItem.type it) _
                Hp' Hnone) as [_ Hf].
    assert (MintItem.contract it ∉ (fetches st).*1) as Hnew.
    { intros Hin. by apply Hc, Hcache. }
    unfold fetchLedger. rewrite Hf, fetches_upsertSummary. rewrite !fmap_app. simpl.
    split; [|split; [|split]].
    + apply NoDup_app. split; [done|]. split; [|apply NoDup_singleton].
      by intros a Ha ->%list_elem_of_singleton.
    + intros addr. unfold enrichCollection. rewrite Hp'. simpl.
      rewrite bool_decide_eq_false_2 by exact Hc. simpl.
      rewrite elem_of_app, list_elem_of_singleton.
      destruct (decide (addr = MintItem.contract it)) as [->|Hne].
      * rewrite lookup_insert_eq. split; [by eexists|by right].
      * rewrite lookup_insert_ne by done. rewrite Hcache. split; [|by left].
        by intros [?|?].
    + intros addr. rewrite !elem_of_app, !list_elem_of_singleton. by rewrite Hitems.
    + intros addr ty [Hin|[= -> ->]%list_elem_of_singleton]%elem_of_app.
      * rewrite firstType_app_seen; [by apply Htypes|].
        apply Hitems. apply list_elem_of_fmap. by exists (addr, ty).
      * symmetry. apply firstType_app_new. intros Hin. by apply Hnew, Hitems.
Qed.

Lemma fetchLedger_ingestLoop l items st :
  httpProvider st = true -> fetchLedger items st ->
  fetchLedger (items ++ l) (ingestLoop l st).
Proof.
  unfold ingestLoop. revert items st.
  induction l as [|it l IH]; intros items st Hp Hled; simpl.
  - by rewrite app_nil_r.
  - rewrite (cons_middle it), app_assoc. apply IH.
    + unfold ingestItem. destruct (bool_decide _); [done|].
      by rewrite httpProvider_enrichCollection.
    + by apply fetchLedger_ingestItem.
Qed.

Lemma fetchLedger_enrichSettled items addr ty n s d st :
  (addr, ty) ∈ fetches st -> fetchLedger items st ->
  fetchLedger items (enrichSettled addr ty n s d st).
Proof.
  intros Hin (Hnd & Hcache & Hitems & Htypes). unfold fetchLedger.
  rewrite fetches_enrichSettled. split; [done|]. split; [|done].
  intros a. rewrite Hcache.
  assert (is_Some (metaCache st !! addr)) as Hsome.
  { apply Hcache. apply list_elem_of_fmap. by exists (addr, ty). }
  unfold enrichSettled. simpl.
  assert (is_Some (metaCache st !! a) <->
          is_Some (<[addr := ContractMeta.mk n s
            match ty with ERC20 => d | _ => None end]> (metaCache st) !! a)) as Hiff.
  { destruct (decide (a = addr)) as [->|Hne].
    - rewrite lookup_insert_eq. split; [by eexists|done].
    - by rewrite lookup_insert_ne. }
  by destruct (summaries st !! addr).
Qed.

Lemma fetchLedger_run tr items st :
  httpProvider st = true -> fetchLedger items st -> answered st tr ->
  fetchLedger (items ++ folded tr) (run tr st).
Proof.
  unfold run. revert items st.
  induction tr as [|ev tr IH]; intros items st Hp Hled Hans.
  - simpl. by rewrite app_nil_r.
  - change (ev :: tr) with ([ev] ++ tr) at 1.
    rewrite folded_app, app_assoc. cbn [foldl]. destruct Hans as [Hev Hans].
    apply IH; [by rewrite httpProvider_step| |done].
    destruct ev as [newItems|newItems|addr ty|addr ty n s d]; simpl;
      rewrite ?app_nil_r.
    + by apply fetchLedger_ingestLoop.
    + by destruct newItems.
    + done.
    + by apply fetchLedger_enrichSettled.
Qed.

Lemma fetchLedger_start st :
  fetches st = [] -> metaCache st = ∅ -> fetchLedger [] st.
Proof.
  intros Hf Hc. unfold fetchLedger. rewrite Hf, Hc. simpl.
  split; [apply NoDup_nil_2|]. split; [|split].
  - intros a. rewrite lookup_empty. split; [by intros ?%not_elem_of_nil|by intros [? ?]].
  - done.
  - by intros a ty ?%not_elem_of_nil.
Qed.

Lemma fetchCount_ledger (addr : string) (l : list (string * TokenType)) :
  NoDup l.*1 ->
  length (filter (fun f => f.1 = addr) l) =
    if bool_decide (addr ∈ l.*1) then 1%nat else 0%nat.
Proof.
  induction l as [|[a ty] l IH]; intros Hnd; [done|].
  simpl in Hnd. apply NoDup_cons in Hnd as [Hnotin Hnd].
  destruct (decide (a = addr)) as [->|Hne].
  - rewrite filter_cons_True by done. simpl. rewrite IH by done.
    rewrite (bool_decide_eq_false_2 _ Hnotin).
    rewrite bool_decide_eq_true_2; [done|]. simpl. by left.
  - rewrite filter_cons_False by done. rewrite IH by done.
    assert (bool_decide (addr ∈ l.*1) = bool_decide (addr ∈ ((a, ty) :: l).*1)) as ->;
      [|done].
    apply bool_decide_ext. rewrite fmap_cons, elem_of_cons. simpl.
    split; [by right|]. by intros [?|?].
Qed.

(** X11. With the HTTP provider present and starting from an empty
    cache with no fetch issued, a session whose settled lookups follow
    their fetches makes exactly one metadata fetch for every contract
    that had an item in a loop and none for any other address; the
    fetch carries the token type of the first item of the contract,
    which decides whether [decimals()] is asked. *)
Theorem one_fetch_per_contract (st : State) (tr : list Event) (addr : string) :
  httpProvider st = true -> fetches st = [] -> metaCache st = ∅ ->
  answered st tr ->
  fetchCount addr (run tr st) =
    (if bool_decide (addr ∈ MintItem.contract <$> folded tr) then 1 else 0)%nat /\
  (forall ty, (addr, ty) ∈ fetches (run tr st) ->
     Some ty = firstType addr (folded tr)).
Proof.
  intros Hp Hf Hc Hans.
  destruct (fetchLedger_run tr [] st Hp (fetchLedger_start st Hf Hc) Hans)
    as (Hnd & _ & Hitems & Htypes).
  simpl in Hitems, Htypes. split; [|apply Htypes].
  unfold fetchCount. rewrite fetchCount_ledger by done.
  assert (bool_decide (addr ∈ (fetches (run tr st)).*1) =
          bool_decide (addr ∈ MintItem.contract <$> folded tr)) as ->; [|done].
  apply bool_decide_ext, Hitems.
Qed.

(** * The listener from start to feed *)

Section ListenerSession.
Context {E : Ethers}.

Lemma deliver_nothing (st : State) (d : Delivery) :
  decodedItems d = [] -> deliver st d = st.
Proof.
  unfold decodedItems, deliver, listener.
  destruct (d_tx d) as [tx|]; [|done].
  destruct (allowedTx tx); [|done].
  destruct (processLog (d_log d)) as [newItems|]; [|done].
  by intros ->.
Qed.

Lemma deliver_items (st : State) (d : Delivery) :
  deliver st d =
    processNewItems (fetchTimestamp (httpProvider st) (d_getBlock d)) (decodedItems d) st.
Proof.
  unfold decodedItems, deliver, listener.
  destruct (d_tx d) as [tx|]; [|done].
  destruct (allowedTx tx); [|done].
  destruct (processLog (d_log d)) as [newItems|]; [|done].
  by destruct newItems.
Qed.

Lemma httpProvider_deliver (st : State) (d : Delivery) :
  httpProvider (deliver st d) = httpProvider st.
Proof. by rewrite deliver_run, httpProvider_run. Qed.

Lemma mints_deliver (st : State) (d : Delivery) :
  mints (deliver st d) ≡ₚ publishedItems (httpProvider st) d ++ mints st /\
  (StronglySorted feedOrder (mints st) -> StronglySorted feedOrder (mints (deliver st d))).
Proof.
  rewrite deliver_items. unfold publishedItems.
  destruct (decodedItems d) as [|it l] eqn:Hd; [done|].
  rewrite mints_processNewItems by done. split.
  - apply jsSort_compareMints_perm.
  - intros _. apply jsSort_compareMints_sorted.
Qed.

Lemma folded_deliveryTrace (provider : bool) (ds : list Delivery) :
  folded (flat_map (deliveryTrace provider) ds) = flat_map decodedItems ds.
Proof.
  induction ds as [|d ds IH]; [done|]. simpl. rewrite folded_app, IH. f_equal.
  unfold deliveryTrace, decodedItems.
  destruct (d_tx d) as [tx|]; [|done].
  destruct (allowedTx tx); [|done].
  destruct (processLog (d_log d)) as [newItems|]; [|done].
  simpl. by rewrite app_nil_r.
Qed.

Lemma answered_app (tr1 tr2 : list Event) (st : State) :
  answered st tr1 -> answered (run tr1 st) tr2 -> answered st (tr1 ++ tr2).
Proof.
  revert st. induction tr1 as [|ev tr1 IH]; intros st H1 H2; [done|].
  destruct H1 as [Hev H1]. split; [done|]. by apply IH.
Qed.

Lemma answered_deliveries (provider : bool) (ds : list Delivery) (st : State) :
  answered st (flat_map (deliveryTrace provider) ds).
Proof.
  revert st. induction ds as [|d ds IH]; intros st; [done|]. simpl.
  apply answered_app; [|apply IH].
  unfold deliveryTrace.
  destruct (d_tx d) as [tx|]; [|done].
  destruct (allowedTx tx); [|done].
  by destruct (processLog (d_log d)) as [newItems|].
Qed.

Lemma mints_runLogs (ds : list Delivery) (st : State) :
  mints (runLogs ds st) ≡ₚ
    flat_map (publishedItems (httpProvider st)) ds ++ mints st /\
  (StronglySorted feedOrder (mints st) ->
   StronglySorted feedOrder (mints (runLogs ds st))).
Proof.
  unfold runLogs. revert st.
  induction ds as [|d ds IH]; intros st; [done|]. cbn [foldl flat_map].
  destruct (IH (deliver st d)) as (Hperm & Hsorted).
  destruct (mints_deliver st d) as [Hperm1 Hsorted1].
  rewrite httpProvider_deliver in Hperm. split.
  - rewrite Hperm, Hperm1, (app_assoc _ _ (mints st)).
    apply Permutation_app_tail, Permutation_app_comm.
  - intros Hst. by apply Hsorted, Hsorted1.
Qed.

Lemma runLogs_nothing (ds : list Delivery) (st : State) :
  Forall (fun d => decodedItems d = []) ds -> runLogs ds st = st.
Proof.
  unfold runLogs. induction ds as [|d ds IH]; [done|].
  intros [Hd Hds]%Forall_cons. cbn [foldl]. rewrite (deliver_nothing st d Hd).
  by apply IH.
Qed.

Lemma contract_of_mintsOf (addr : string) (items : list MintItem.t) :
  mintsOf addr items <> [] <-> addr ∈ MintItem.contract <$> items.
Proof.
  split.
  - intros Hne. destruct (mintsOf addr items) as [|x l] eqn:Hl; [done|].
    assert (x ∈ mintsOf addr items) as Hx by (rewrite Hl; left).
    unfold mintsOf in Hx. apply list_elem_of_filter in Hx as [Hcx Hx].
    apply list_elem_of_fmap. by exists x.
  - intros (x & -> & Hx)%list_elem_of_fmap Hnil.
    assert (x ∈ mintsOf (MintItem.contract x) items) as Hin.
    { unfold mintsOf. by apply list_elem_of_filter. }
    rewrite Hnil in Hin. by apply not_elem_of_nil in Hin.
Qed.

(** X12. Whatever the stream delivers, the feed after it holds the
    items decoded from the accepted deliveries, stamped with the
    timestamps of their blocks, together with what it held before, and
    nothing else; it stays sorted once it is; and deliveries that are
    rejected or decode to nothing leave the whole state as it was. *)
Theorem listener_feed_contents (ds : list Delivery) (st : State) :
  mints (runLogs ds st) ≡ₚ
    flat_map (publishedItems (httpProvider st)) ds ++ mints st /\
  (StronglySorted feedOrder (mints st) ->
   StronglySorted feedOrder (mints (runLogs ds st))) /\
  (Forall (fun d => decodedItems d = []) ds -> runLogs ds st = st).
Proof.
  destruct (mints_runLogs ds st) as [Hperm Hsorted].
  split; [done|]. split; [done|]. apply runLogs_nothing.
Qed.

(** X13. A session opened by [startLive] with both providers present
    drops what the component held; after any stream of deliveries the
    feed is sorted and holds exactly the items of the accepted
    deliveries, and a contract has a summary, a cache entry and one
    metadata fetch exactly when one of those items is its own. *)
Theorem live_session_accounts (st0 : State) (ds : list Delivery) :
  wsProvider st0 = true -> httpProvider st0 = true -> subscribing st0 = false ->
  let st := runLogs ds (startLive st0) in
  let items := flat_map decodedItems ds in
  StronglySorted feedOrder (mints st) /\
  mints st ≡ₚ flat_map (publishedItems true) ds /\
  forall addr,
    (is_Some (summaries st !! addr) <-> addr ∈ MintItem.contract <$> items) /\
    (is_Some (metaCache st !! addr) <-> addr ∈ MintItem.contract <$> items) /\
    fetchCount addr st =
      (if bool_decide (addr ∈ MintItem.contract <$> items) then 1 else 0)%nat.
Proof.
  intros Hws Hhttp Hsub. cbv zeta.
  destruct (startLive_resets st0 Hws Hhttp Hsub) as (Hm & Hs & Hc & Hf & _).
  assert (httpProvider (startLive st0) = true) as Hp.
  { unfold startLive. by rewrite Hws, Hhttp, Hsub. }
  remember (startLive st0) as st1 eqn:Hst1. clear Hst1.
  destruct (mints_runLogs ds st1) as [Hperm Hsorted].
  split; [|split].
  - apply Hsorted. rewrite Hm. apply SSorted_nil.
  - by rewrite Hperm, Hp, Hm, app_nil_r.
  - intros addr. rewrite runLogs_run, Hp.
    pose proof (fetchLedger_run (flat_map (deliveryTrace true) ds) [] st1 Hp
                  (fetchLedger_start st1 Hf Hc) (answered_deliveries true ds st1))
      as (Hnd & Hcache & Hitems & _).
    pose proof (countsInv_run (flat_map (deliveryTrace true) ds) [] st1
                  (countsInv_start st1 Hs) addr) as Hcounts.
    simpl in Hitems, Hcounts. rewrite folded_deliveryTrace in Hitems, Hcounts.
    split; [|split].
    + rewrite <- contract_of_mintsOf. unfold summaryCounts in Hcounts.
      destruct (summaries _ !! addr) as [s|].
      * destruct Hcounts as [Hne _]. split; [done|by eexists].
      * split; [by intros [? ?]|]. by intros Hne.
    + by rewrite <- Hcache, Hitems.
    + unfold fetchCount. rewrite fetchCount_ledger by done.
      assert (bool_decide (addr ∈ (fetches (run (flat_map (deliveryTrace true) ds) st1)).*1)
              = bool_decide (addr ∈ MintItem.contract <$> flat_map decodedItems ds))
        as ->; [|done].
      apply bool_decide_ext, Hitems.
Qed.
End ListenerSession.

(** * The summary table *)

Lemma compareTotals_positive (a b : CollSummary.t) :
  positive (compareTotals a b) = true <->
  (CollSummary.totalMintEvents a < CollSummary.totalMintEvents b)%nat.
Proof.
  unfold positive, compareTotals. simpl. rewrite Z.ltb_lt. lia.
Qed.

#[global] Instance tableOrder_trans : Transitive tableOrder.
Proof. unfold tableOrder. intros a b c Hab Hbc. lia. Qed.

(** X14. The summary table shows every summary once, contracts with
    more mint events first; contracts with equally many mint events
    stay in the order [Object.values] gave them. *)
Theorem summary_table_order (values : list CollSummary.t) :
  StronglySorted tableOrder (summaryList values) /\
  summaryList values ≡ₚ values /\
  forall n,
    filter (fun s => CollSummary.totalMintEvents s = n) (summaryList values) =
    filter (fun s => CollSummary.totalMintEvents s = n) values.
Proof.
  unfold summaryList. split; [|split].
  - apply jsSort_sorted; [apply _| |].
    + intros x y Hpos. apply compareTotals_positive in Hpos. unfold tableOrder. lia.
    + intros x y Hneg. unfold tableOrder.
      destruct (decide (CollSummary.totalMintEvents x < CollSummary.totalMintEvents y)%nat)
        as [Hlt|Hge]; [|lia].
      apply compareTotals_positive in Hlt. by rewrite Hlt in Hneg.
  - apply jsSort_perm.
  - intros n. apply jsSort_stable. intros y z Hy Hz.
    destruct (positive (compareTotals y z)) eqn:Hpos; [|done].
    apply compareTotals_positive in Hpos. lia.
Qed.

(** * Starting and stopping *)

(** X15. [stopLive] only clears the subscription flag: feed, summaries
    and cache stay on screen. With both providers present, starting
    after a stop always opens an empty session, whatever was shown;
    starting twice is starting once, and stopping twice is stopping
    once. *)
Theorem stop_then_start (st : State) :
  mints (stopLive st) = mints st /\
  summaries (stopLive st) = summaries st /\
  metaCache (stopLive st) = metaCache st /\
  stopLive (stopLive st) = stopLive st /\
  startLive (startLive st) = startLive st /\
  (wsProvider st = true -> httpProvider st = true ->
   startLive (stopLive st) =
     {| httpProvider := true; wsProvider := true; subscribing := true;
        mints := []; summaries := ∅; metaCache := ∅; fetches := [] |}).
Proof.
  unfold stopLive, startLive.
  destruct st as [http ws sub ms sm mc fs]. simpl.
  destruct ws, http, sub; simpl; repeat split; by intros.
Qed.

(** * The display helpers *)

Lemma string_length_app (p r : string) :
  String.length (p ++ r) = (String.length p + String.length r)%nat.
Proof. induction p as [|c p IH]; simpl; [done|]. by rewrite IH. Qed.

Lemma string_app_assoc (p m q : string) : (p ++ m ++ q = (p ++ m) ++ q)%string.
Proof.
  induction p as [|c p IH]; [done|].
  change (String c (p ++ m ++ q) = String c ((p ++ m) ++ q))%string. by f_equal.
Qed.

Lemma sliceTo_app (p r : string) : sliceTo (String.length p) (p ++ r) = p.
Proof. induction p as [|c p IH]; simpl; [by destruct r|]. by rewrite IH. Qed.

Lemma slice_app (p r : string) : slice (String.length p) (p ++ r) = r.
Proof. induction p as [|c p IH]; simpl; [done|]. exact IH. Qed.

Lemma sliceTo_short (n : nat) (s : string) :
  (String.length s <= n)%nat -> sliceTo n s = s.
Proof.
  revert n. induction s as [|c s IH]; intros n Hn; simpl in *.
  - by destruct n.
  - destruct n as [|n]; [lia|]. simpl. rewrite IH; [done|lia].
Qed.

Lemma sliceTo_length (n : nat) (s : string) :
  String.length (sliceTo n s) = Nat.min n (String.length s).
Proof.
  revert n. induction s as [|c s IH]; intros [|n]; simpl; try done. by rewrite IH.
Qed.

Lemma slice_length (n : nat) (s : string) :
  String.length (slice n s) = (String.length s - n)%nat.
Proof. revert n. induction s as [|c s IH]; intros [|n]; simpl; done. Qed.

(** X16. [shortenAddress] keeps the first six and the last four
    characters of a string of ten or more and puts three dots between
    them, whatever stands in the middle; a string of at most four
    characters is shown twice, once on each side of the dots. The
    result is never longer than thirteen characters. *)
Theorem shortened_address :
  (forall p m q, String.length p = 6%nat -> String.length q = 4%nat ->
     shortenAddress (p ++ m ++ q) = (p ++ "..." ++ q)%string) /\
  (forall s, (String.length s <= 4)%nat ->
     shortenAddress s = (s ++ "..." ++ s)%string) /\
  (forall s, String.length (shortenAddress s) =
     (Nat.min 6 (String.length s) + 3 + Nat.min 4 (String.length s))%nat).
Proof.
  unfold shortenAddress, sliceLast. split; [|split].
  - intros p m q Hp Hq. rewrite <- Hp at 1. rewrite sliceTo_app. do 2 f_equal.
    rewrite string_app_assoc, string_length_app, Hq.
    rewrite Nat.add_sub. apply slice_app.
  - intros s Hs. rewrite sliceTo_short by lia.
    by replace (String.length s - 4)%nat with 0%nat by lia.
  - intros s. rewrite !string_length_app, sliceTo_length, slice_length.
    change (String.length "...") with 3%nat. lia.
Qed.

(** X17. The amount of a feed row decoded as ERC-20 is never the
    [N/A] placeholder: it is what [formatUnits] makes of the decoded
    numeral with the decimals the cache holds for the contract, with
    18 decimals while the cache has none, and the numeral itself when
    [formatUnits] fails. *)
Theorem decoded_amount_shown {E : Ethers} (log : Log.t) (c : string)
    (items : list MintItem.t) (it : MintItem.t) :
  getAddress (Log.address log) = Some c ->
  processLog log = Normal items ->
  it ∈ items ->
  MintItem.type it = ERC20 ->
  exists a,
    MintItem.amount it = Some a /\ a <> "" /\
    forall formatUnits st,
      amountCell formatUnits st it =
        default a (formatUnits a
                     (default 18 (metaCache st !! c ≫= ContractMeta.decimals))).
Proof.
  intros Hc Hitems Hin Hty.
  destruct (processLog_shape log c items Hc Hitems) as (to & ty & Hall).
  rewrite Forall_forall in Hall.
  destruct (Hall it Hin) as [(_ & _ & Hcontract & _ & _ & Hfields) _].
  rewrite Hty in Hfields. destruct Hfields as [_ Htruthy].
  destruct (MintItem.amount it) as [a|] eqn:Ha; [|done].
  exists a. split; [done|]. split.
  - intros ->. done.
  - intros fu st. unfold amountCell, formatAmount. rewrite Ha, Htruthy, Hcontract.
    by destruct (fu a _).
Qed.


(** * The further properties on sample inputs *)

(** A resale yields nothing. *)
Lemma non_mints_yield_nothing_witness :
  processLog (E := EthersRef.instance) MoreSamples.resaleLog = Normal [].
Proof.
  assert (@getAddress EthersRef.instance (Log.address MoreSamples.resaleLog) =
          Some Sample.contract9) as Hc by (vm_compute; reflexivity).
  assert (Log.topics MoreSamples.resaleLog !! 0%nat = Some TRANSFER_TOPIC /\
          Log.topics MoreSamples.resaleLog !! 1%nat <> Some ZERO_TOPIC) as Hcase.
  { split; [reflexivity|]. intros H. vm_compute in H. discriminate H. }
  exact (@non_mints_yield_nothing EthersRef.instance MoreSamples.resaleLog
           Sample.contract9 Hc (or_intror (or_introl Hcase))).
Defined.

(** A single mint of 3 units of token 7. *)
Lemma single_mint_one_item_witness :
  processLog (E := EthersRef.instance) MoreSamples.singleLog =
    Normal [MintItem.mk 100 "0xaa" (inject_Z 6) Sample.contract9 Sample.recipient7
              ERC1155 (Some "7") (Some "3") None].
Proof.
  refine (@single_mint_one_item EthersRef.instance MoreSamples.singleLog
            Sample.contract9 Sample.recipientTopic Sample.recipient7 7 3
            _ _ _ _ _ _);
    vm_compute; reflexivity.
Defined.


(** The three items of the sample batch. *)
Lemma decoded_items_well_formed_witness :
  Forall (itemOf Sample.batchLog Sample.contract9) MoreSamples.batchItems.
Proof.
  assert (@getAddress EthersRef.instance (Log.address Sample.batchLog) =
          Some Sample.contract9) as Hc by (vm_compute; reflexivity).
  assert (processLog (E := EthersRef.instance) Sample.batchLog =
          Normal MoreSamples.batchItems) as Hitems by (vm_compute; reflexivity).
  destruct (@decoded_items_well_formed EthersRef.instance Sample.batchLog
              Sample.contract9 MoreSamples.batchItems Hc Hitems) as [Hall _].
  exact Hall.
Defined.

(** The summary table of the three-mint session has no key twice. *)
Lemma summary_filed_under_address_witness :
  NoDup (CollSummary.address <$>
           (map_to_list (summaries (run Sample.threeMints Sample.sessionStart))).*2).
Proof.
  assert (summaries Sample.sessionStart = ∅) as Hstart by reflexivity.
  destruct (summary_filed_under_address Sample.sessionStart Sample.threeMints Hstart)
    as [_ Hkeys].
  exact Hkeys.
Defined.

(** After the lookup settled, summary and cache both show the name. *)
Lemma summary_shows_cached_metadata_witness :
  CollSummary.name
    (CollSummary.mk Sample.contract9 ERC721 (Some "Nine") (Some "N9") None 2 2
       {[ "1"; "2" ]}) =
  metaCache (run MoreSamples.settledSession Sample.sessionStart) !! Sample.contract9
    ≫= ContractMeta.name.
Proof.
  assert (summaries Sample.sessionStart = ∅) as Hstart by reflexivity.
  assert (summaries (run MoreSamples.settledSession Sample.sessionStart)
            !! Sample.contract9 =
          Some (CollSummary.mk Sample.contract9 ERC721 (Some "Nine") (Some "N9") None
                  2 2 {[ "1"; "2" ]})) as Hs by (vm_compute; reflexivity).
  destruct (summary_shows_cached_metadata Sample.sessionStart
              MoreSamples.settledSession Sample.contract9 _ Hstart Hs) as [Hname _].
  exact Hname.
Defined.

(** Lookups settled for two different addresses, in both orders. *)
Lemma settled_last_wins_witness :
  enrichSettled Sample.contract9 ERC721 (Some "Nine") None None
      (enrichSettled Sample.recipient7 ERC20 None (Some "R7") (Some 6)
         Sample.sessionStart) =
    enrichSettled Sample.recipient7 ERC20 None (Some "R7") (Some 6)
      (enrichSettled Sample.contract9 ERC721 (Some "Nine") None None
         Sample.sessionStart).
Proof.
  assert (Sample.contract9 <> Sample.recipient7) as Hne.
  { intros H. vm_compute in H. discriminate H. }
  pose proof (settled_last_wins Sample.sessionStart Sample.contract9 Sample.recipient7
                ERC721 ERC20 (Some "Nine") None None (Some "R7") None (Some 6))
    as [_ Hcomm].
  exact (Hcomm Hne).
Defined.

(** Two ERC-721 mints of one contract, in both orders. *)
Lemma upserts_commute_witness :
  upsertSummary (Sample.nft 1 0 "1") (upsertSummary (Sample.nft 1 1 "2") Sample.sessionStart) =
    upsertSummary (Sample.nft 1 1 "2") (upsertSummary (Sample.nft 1 0 "1") Sample.sessionStart).
Proof.
  assert (MintItem.contract (Sample.nft 1 0 "1") <> MintItem.contract (Sample.nft 1 1 "2") \/
          MintItem.type (Sample.nft 1 0 "1") = MintItem.type (Sample.nft 1 1 "2")) as Hcase
    by (right; reflexivity).
  exact (upserts_commute Sample.sessionStart (Sample.nft 1 0 "1") (Sample.nft 1 1 "2")
           Hcase).
Defined.

(** Two blocks, interleaved: two lookups, in the order the blocks
    first appear. *)
Example one_lookup_per_block_sample :
  (stampByBlock MoreSamples.blockTimes MoreSamples.mixedBlocks).1 = [1; 2].
Proof. vm_compute. reflexivity. Qed.

(** The third item, of block 1, gets the timestamp of block 1. *)
Lemma stamping_through_groups_witness :
  exists it',
    (stampByBlock MoreSamples.blockTimes MoreSamples.mixedBlocks).2 !! 2%nat = Some it' /\
    MintItem.timestamp it' =
      MoreSamples.blockTimes (MintItem.blockNumber (Sample.nft 1 1 "3")) /\
    MintItem.set_timestamp (MintItem.timestamp (Sample.nft 1 1 "3")) it' =
      Sample.nft 1 1 "3".
Proof.
  assert (MoreSamples.mixedBlocks !! 2%nat = Some (Sample.nft 1 1 "3")) as Hit
    by reflexivity.
  destruct (stamping_through_groups MoreSamples.blockTimes MoreSamples.mixedBlocks)
    as (_ & _ & Hthird).
  exact (Hthird 2%nat (Sample.nft 1 1 "3") Hit).
Defined.

(** One fetch for the contract of the two loops, the lookup settling
    in between. *)
Lemma one_fetch_per_contract_witness :
  fetchCount Sample.contract9 (run MoreSamples.settledSession Sample.sessionStart) =
    (if bool_decide (Sample.contract9 ∈
                       MintItem.contract <$> folded MoreSamples.settledSession)
     then 1 else 0)%nat.
Proof.
  assert (httpProvider Sample.sessionStart = true) as Hp by reflexivity.
  assert (fetches Sample.sessionStart = []) as Hf by reflexivity.
  assert (metaCache Sample.sessionStart = ∅) as Hc by reflexivity.
  assert (answered Sample.sessionStart MoreSamples.settledSession) as Hans.
  { unfold MoreSamples.settledSession. cbn [answered]. split; [exact I|]. split.
    - vm_compute. left.
    - split; exact I. }
  destruct (one_fetch_per_contract Sample.sessionStart MoreSamples.settledSession
              Sample.contract9 Hp Hf Hc Hans) as [Hcount _].
  exact Hcount.
Defined.

Example one_fetch_per_contract_sample :
  fetches (run MoreSamples.settledSession Sample.sessionStart) =
    [(Sample.contract9, ERC721)].
Proof. vm_compute. reflexivity. Qed.

(** A stream in which nothing gets through leaves the idle component
    as it was. *)
Lemma listener_feed_contents_witness :
  runLogs (E := EthersRef.instance) MoreSamples.quietStream Sample.idle = Sample.idle.
Proof.
  assert (Forall (fun d => decodedItems (E := EthersRef.instance) d = [])
            MoreSamples.quietStream) as Hquiet.
  { unfold MoreSamples.quietStream.
    apply List.Forall_cons; [vm_compute; reflexivity|].
    apply List.Forall_cons; [vm_compute; reflexivity|].
    apply List.Forall_nil. }
  destruct (@listener_feed_contents EthersRef.instance MoreSamples.quietStream
              Sample.idle) as (_ & _ & Hnone).
  exact (Hnone Hquiet).
Defined.

(** The sample stream after [startLive] on the idle component. *)
Lemma live_session_accounts_witness :
  StronglySorted feedOrder
    (mints (runLogs (E := EthersRef.instance) MoreSamples.stream
              (startLive Sample.idle))).
Proof.
  assert (wsProvider Sample.idle = true) as Hws by reflexivity.
  assert (httpProvider Sample.idle = true) as Hhttp by reflexivity.
  assert (subscribing Sample.idle = false) as Hsub by reflexivity.
  pose proof (@live_session_accounts EthersRef.instance Sample.idle
                MoreSamples.stream Hws Hhttp Hsub) as Hthm.
  cbv zeta in Hthm. destruct Hthm as [Hsorted _]. exact Hsorted.
Defined.

(** That session, evaluated: four rows, the batch items above the
    ERC-721 mint of the same block and index, one summary, one
    fetch. *)
Example live_session_sample :
  let st := runLogs (E := EthersRef.instance) MoreSamples.stream (startLive Sample.idle) in
  MintItem.tokenId <$> mints st = [Some "3"; Some "2"; Some "1"; Some "42"] /\
  MintItem.timestamp <$> mints st =
    [Some 1700000000; Some 1700000000; Some 1700000000; Some 1700000000] /\
  CollSummary.totalMintEvents <$> summaries st !! Sample.contract9 = Some 4%nat /\
  fetches st = [(Sample.contract9, ERC721)].
Proof. vm_compute. done. Qed.

(** Stopping and starting again on the idle component. *)
Lemma stop_then_start_witness :
  startLive (stopLive Sample.idle) =
    {| httpProvider := true; wsProvider := true; subscribing := true;
       mints := []; summaries := ∅; metaCache := ∅; fetches := [] |}.
Proof.
  assert (wsProvider Sample.idle = true) as Hws by reflexivity.
  assert (httpProvider Sample.idle = true) as Hhttp by reflexivity.
  destruct (stop_then_start Sample.idle) as (_ & _ & _ & _ & _ & Hfresh).
  exact (Hfresh Hws Hhttp).
Defined.

(** The sample contract address, shortened. *)
Lemma shortened_address_witness :
  shortenAddress ("0x0000" ++ "00000000000000000000000000000000" ++ "0009") =
    ("0x0000" ++ "..." ++ "0009")%string.
Proof.
  assert (String.length "0x0000" = 6%nat) as Hp by reflexivity.
  assert (String.length "0009" = 4%nat) as Hq by reflexivity.
  destruct shortened_address as [Hlong _].
  exact (Hlong "0x0000" "00000000000000000000000000000000" "0009" Hp Hq).
Defined.

Example shortened_address_sample :
  shortenAddress Sample.contract9 = "0x0000...0009" /\
  shortenAddress "0xab" = "0xab...0xab".
Proof. vm_compute. done. Qed.

(** The amount of the sample ERC-20 mint. *)
Lemma decoded_amount_shown_witness :
  exists a,
    MintItem.amount MoreSamples.erc20Item = Some a /\ a <> "" /\
    forall formatUnits st,
      amountCell formatUnits st MoreSamples.erc20Item =
        default a (formatUnits a
                     (default 18 (metaCache st !! Sample.contract9
                                    ≫= ContractMeta.decimals))).
Proof.
  assert (@getAddress EthersRef.instance (Log.address Sample.erc20Log) =
          Some Sample.contract9) as Hc by (vm_compute; reflexivity).
  assert (processLog (E := EthersRef.instance) Sample.erc20Log =
          Normal [MoreSamples.erc20Item]) as Hitems by (vm_compute; reflexivity).
  assert (MoreSamples.erc20Item ∈ [MoreSamples.erc20Item]) as Hin by left.
  assert (MintItem.type MoreSamples.erc20Item = ERC20) as Hty by reflexivity.
  exact (@decoded_amount_shown EthersRef.instance Sample.erc20Log Sample.contract9
           [MoreSamples.erc20Item] MoreSamples.erc20Item Hc Hitems Hin Hty).
Defined.

